(** * cpiofile: new-ASCII CPIO archives

    A shallow embedding of [cpiofile.py] and the properties of its header
    codec, offset arithmetic, entry scanner and member streams.

    Conventions of the embedding:
    - a Python [bytes] object is a [list byte]; a Python [int] is a [Z];
      a Python [str] is the list of its code points;
    - the file object [fp] is an in-memory seekable byte store with one
      cursor (the behaviour of [io.BytesIO]);
    - a method that mutates state or raises is a function from the state to
      a result and the state left behind ([M]); an exception keeps whatever
      was mutated before it was raised;
    - the generator [infolist] is a step function on an explicit generator
      state, and a driver that collects what it yields. *)

From Stdlib Require Import ZArith List Lia Bool.
From Stdlib Require Import Strings.String Strings.Ascii Strings.Byte.
Import ListNotations.
Local Open Scope Z_scope.

(** ** Bytes and lengths *)

Definition bytes := list byte.

Definition bz (b : byte) : Z := Z.of_N (Byte.to_N b).

Definition zb (z : Z) : byte :=
  match Byte.of_N (Z.to_N z) with
  | Some b => b
  | None => x00
  end.

(** [len] is Python's [len] on a sequence. *)
Definition len {A} (l : list A) : Z := Z.of_nat (List.length l).

(** [B"..."] literals. *)
Definition b_lit (s : string) : bytes := list_byte_of_string s.

(** [B"\x00" * n] *)
Definition zeros (n : Z) : bytes := repeat x00 (Z.to_nat n).

Definition bytes_eqb (a b : bytes) : bool :=
  if list_eq_dec Byte.byte_eq_dec a b then true else false.

(** Python slicing [l[a:b]] for [0 <= a <= b]. *)
Definition slice {A} (a b : Z) (l : list A) : list A :=
  firstn (Z.to_nat (b - a)) (skipn (Z.to_nat a) l).

(** ** Exceptions and the state-and-exception monad *)

Inductive bad_cpio :=
| Truncated          (* "CPIO truncated." *)
| BadMagic           (* "Bad magic or not a new-ASCII CPIO, ..." *)
| NonHexField        (* "CPIO header contains non-hex-encoded integer." *)
| ZeroLengthName     (* "CPIO entry with zero-length filename." *)
| NotNulTerminated.  (* "CPIO entry with non-NUL-terminated filename ..." *)

Inductive value_error :=
| UnknownMode        (* "Unknown mode ..." *)
| ReadOnly           (* "CPIO is open read-only." *)
| TwoWriters         (* "Cannot open two CPIO member writers at the same time." *)
| CloseWhileWriting  (* "Cannot close CPIO until member writer has been closed." *)
| LengthMismatch (actual expected : Z)
                     (* "Writer wrote ... bytes but info specified ... bytes." *)
| NegativeSeek.      (* raised by [fp.seek] on a negative position *)

Inductive exn :=
| BadCPIOFile (why : bad_cpio)
| ValueError (why : value_error)
| UnicodeDecodeError
| UnicodeEncodeError
| DanglingHandle.

Inductive res (A : Type) :=
| Ok (a : A)
| Raise (e : exn).
Arguments Ok {A} a.
Arguments Raise {A} e.

Definition M (S A : Type) : Type := S -> res A * S.

Definition ret {S A} (a : A) : M S A := fun s => (Ok a, s).
Definition raise {S A} (e : exn) : M S A := fun s => (Raise e, s).
Definition bind {S A B} (m : M S A) (k : A -> M S B) : M S B :=
  fun s => match m s with
           | (Ok a, s') => k a s'
           | (Raise e, s') => (Raise e, s')
           end.

Declare Scope monad_scope.
Delimit Scope monad_scope with monad.
Notation "x <- m ;; k" := (bind m (fun x => k))
  (at level 61, m at next level, right associativity) : monad_scope.
Notation "m ;;; k" := (bind m (fun _ => k))
  (at level 61, right associativity) : monad_scope.
Local Open Scope monad_scope.

(** ** The file object

    One byte store and one cursor.  Reading past the end returns what is
    there; writing past the end fills the gap with zero bytes. *)

Record File := mkFile { content : bytes; cursor : Z }.

Definition tell : M File Z := fun f => (Ok (cursor f), f).

(** [fp.seek(off, io.SEEK_SET)] *)
Definition seek_set (off : Z) : M File unit := fun f =>
  if off <? 0 then (Raise (ValueError NegativeSeek), f)
  else (Ok tt, mkFile (content f) off).

(** [fp.seek(0, io.SEEK_END)] *)
Definition seek_end : M File unit := fun f =>
  (Ok tt, mkFile (content f) (len (content f))).

(** [fp.read(n)]: a negative [n] reads to the end. *)
Definition read (n : Z) : M File bytes := fun f =>
  let avail := skipn (Z.to_nat (cursor f)) (content f) in
  let got := if n <? 0 then avail else firstn (Z.to_nat n) avail in
  (Ok got, mkFile (content f) (cursor f + len got)).

(** [fp.write(data)] *)
Definition write (data : bytes) : M File unit := fun f =>
  match data with
  | [] => (Ok tt, f)
  | _ =>
    let c := Z.to_nat (cursor f) in
    let before := firstn c (content f) ++ zeros (cursor f - len (content f)) in
    let after := skipn (c + List.length data) (content f) in
    (Ok tt, mkFile (before ++ data ++ after) (cursor f + len data))
  end.

(** ** [int(field, 16)] on a bytes object

    CPython's integer-literal parser at base 16: optional surrounding ASCII
    white space, an optional sign, an optional [0x]/[0X] prefix, then hex
    digits that single underscores may separate.  Any other byte (a NUL
    included) makes it raise [ValueError], here [None]. *)

Definition ch_plus : byte := "+"%byte.
Definition ch_minus : byte := "-"%byte.
Definition ch_zero : byte := "0"%byte.
Definition ch_x : byte := "x"%byte.
Definition ch_X : byte := "X"%byte.
Definition ch_underscore : byte := "_"%byte.

Definition is_space (b : byte) : bool :=
  let c := bz b in ((9 <=? c) && (c <=? 13)) || (c =? 32).

(** The digit table: 0-9, a-z and A-Z map to 0..35, everything else to 37. *)
Definition digit_value (b : byte) : Z :=
  let c := bz b in
  if (48 <=? c) && (c <=? 57) then c - 48
  else if (97 <=? c) && (c <=? 122) then c - 87
  else if (65 <=? c) && (c <=? 90) then c - 55
  else 37.

Definition is_hex_digit (b : byte) : bool := digit_value b <? 16.

Fixpoint skip_spaces (s : bytes) : bytes :=
  match s with
  | c :: r => if is_space c then skip_spaces r else s
  | [] => []
  end.

(** The digit loop: [prev_us] says the previous byte was an underscore,
    [acc] is the value so far, [n] the number of digits seen.  Returns the
    value, the digit count and the unread rest. *)
Fixpoint scan_digits (prev_us : bool) (acc : Z) (n : nat) (s : bytes)
  : option (Z * nat * bytes) :=
  match s with
  | c :: r =>
    if Byte.eqb c ch_underscore then
      if prev_us then None else scan_digits true acc n r
    else if is_hex_digit c then
      scan_digits false (acc * 16 + digit_value c) (S n) r
    else if prev_us then None else Some (acc, n, s)
  | [] => if prev_us then None else Some (acc, n, s)
  end.

Definition strip_sign (s : bytes) : Z * bytes :=
  match s with
  | c :: r =>
    if Byte.eqb c ch_plus then (1, r)
    else if Byte.eqb c ch_minus then (-1, r)
    else (1, s)
  | [] => (1, s)
  end.

Definition strip_prefix (s : bytes) : bytes :=
  match s with
  | c0 :: c1 :: r =>
    if Byte.eqb c0 ch_zero && (Byte.eqb c1 ch_x || Byte.eqb c1 ch_X) then
      match r with
      | u :: r' => if Byte.eqb u ch_underscore then r' else r
      | [] => r
      end
    else s
  | _ => s
  end.

Definition starts_with_underscore (s : bytes) : bool :=
  match s with
  | c :: _ => Byte.eqb c ch_underscore
  | [] => false
  end.

Definition int16 (s : bytes) : option Z :=
  let '(sign, s2) := strip_sign (skip_spaces s) in
  let s3 := strip_prefix s2 in
  if starts_with_underscore s3 then None
  else
    match scan_digits false 0 O s3 with
    | Some (v, n, rest) =>
      match n, skip_spaces rest with
      | S _, [] => Some (sign * v)
      | _, _ => None
      end
    | None => None
    end.

(** ** [f"{x:08x}"] and the [8s] fields of [struct] *)

Definition hex_char (d : Z) : byte := zb (if d <? 10 then 48 + d else 87 + d).

(** The [n] low hex digits of [x], most significant first. *)
Fixpoint hex_fixed (n : nat) (x : Z) : bytes :=
  match n with
  | O => []
  | S n' => hex_fixed n' (x / 16) ++ [hex_char (x mod 16)]
  end.

(** How many hex digits a non-negative [x] needs. *)
Definition hex_width (x : Z) : nat :=
  if x <=? 0 then 1%nat else Z.to_nat (Z.log2 x / 4 + 1).

(** Zero-padded to eight characters, the sign included in the eight. *)
Definition format_08x (x : Z) : bytes :=
  if 0 <=? x then hex_fixed (Nat.max 8 (hex_width x)) x
  else ch_minus :: hex_fixed (Nat.max 7 (hex_width (- x))) (- x).

(** An [8s] field cuts what is longer and fills what is shorter with NUL. *)
Definition pack_s (n : nat) (b : bytes) : bytes :=
  firstn n b ++ repeat x00 (n - List.length b).

(** [_ENTRY_HEADER = struct.Struct("<6s8s8s8s8s8s8s8s8s8s8s8s8s8s")] *)
Definition ENTRY_HEADER_size : Z := 110.

Definition ENTRY_HEADER_pack (magic : bytes) (values : list bytes) : bytes :=
  pack_s 6 magic ++ List.concat (map (pack_s 8) values).

(** The magic of an unpacked header and its [i]-th 8-byte field, from 0. *)
Definition header_magic (header : bytes) : bytes := slice 0 6 header.
Definition header_field (i : Z) (header : bytes) : bytes :=
  slice (6 + 8 * i) (6 + 8 * i + 8) header.

(** ** [str.encode()] and [bytes.decode()]: strict UTF-8 *)

Definition pystr := list Z.

Definition s_lit (s : string) : pystr := map bz (list_byte_of_string s).

Definition in_range (lo hi : Z) (b : byte) : bool :=
  (lo <=? bz b) && (bz b <=? hi).

Definition utf8_encode_cp (c : Z) : option bytes :=
  if c <? 0 then None
  else if c <? 128 then Some [zb c]
  else if c <? 2048 then Some [zb (192 + c / 64); zb (128 + c mod 64)]
  else if c <? 65536 then
    if (55296 <=? c) && (c <=? 57343) then None
    else Some [zb (224 + c / 4096); zb (128 + (c / 64) mod 64);
               zb (128 + c mod 64)]
  else if c <? 1114112 then
    Some [zb (240 + c / 262144); zb (128 + (c / 4096) mod 64);
          zb (128 + (c / 64) mod 64); zb (128 + c mod 64)]
  else None.

Fixpoint utf8_encode (s : pystr) : option bytes :=
  match s with
  | [] => Some []
  | c :: r =>
    match utf8_encode_cp c, utf8_encode r with
    | Some a, Some b => Some (a ++ b)
    | _, _ => None
    end
  end.

Fixpoint utf8_decode (s : bytes) : option pystr :=
  match s with
  | [] => Some []
  | b0 :: r0 =>
    let x0 := bz b0 in
    if x0 <? 128 then option_map (cons x0) (utf8_decode r0)
    else if x0 <? 194 then None
    else if x0 <? 224 then
      match r0 with
      | b1 :: r1 =>
        if in_range 128 191 b1 then
          option_map (cons ((x0 - 192) * 64 + (bz b1 - 128))) (utf8_decode r1)
        else None
      | _ => None
      end
    else if x0 <? 240 then
      match r0 with
      | b1 :: b2 :: r2 =>
        if in_range (if x0 =? 224 then 160 else 128)
                    (if x0 =? 237 then 159 else 191) b1
           && in_range 128 191 b2 then
          option_map
            (cons ((x0 - 224) * 4096 + (bz b1 - 128) * 64 + (bz b2 - 128)))
            (utf8_decode r2)
        else None
      | _ => None
      end
    else if x0 <? 245 then
      match r0 with
      | b1 :: b2 :: b3 :: r3 =>
        if in_range (if x0 =? 240 then 144 else 128)
                    (if x0 =? 244 then 143 else 191) b1
           && in_range 128 191 b2 && in_range 128 191 b3 then
          option_map
            (cons ((x0 - 240) * 262144 + (bz b1 - 128) * 4096
                   + (bz b2 - 128) * 64 + (bz b3 - 128)))
            (utf8_decode r3)
        else None
      | _ => None
      end
    else None
  end.

Definition pystr_eqb (a b : pystr) : bool :=
  if list_eq_dec Z.eq_dec a b then true else false.

Definition lift_res {S A} (r : res A) : M S A := fun s => (r, s).

(** ** [class CPIOInfo] *)

Record CPIOInfo := mkCPIOInfo {
  _offset : Z;
  ino : Z;
  mode : Z;
  uid : Z;
  gid : Z;
  nlink : Z;
  mtime : Z;
  filesize : Z;
  devmajor : Z;
  devminor : Z;
  rdevmajor : Z;
  rdevminor : Z;
  _name : bytes
}.

(** [CPIOInfo.__init__]: the name arrives as a [str] and is kept encoded. *)
Definition CPIOInfo_init
  (offset ino mode uid gid nlink mtime filesize
   devmajor devminor rdevmajor rdevminor : Z) (name : pystr) : res CPIOInfo :=
  match utf8_encode name with
  | Some b =>
    Ok (mkCPIOInfo offset ino mode uid gid nlink mtime filesize
          devmajor devminor rdevmajor rdevminor b)
  | None => Raise UnicodeEncodeError
  end.

Definition parse_field (field : bytes) : M File Z :=
  match int16 field with
  | Some v => ret v
  | None => raise (BadCPIOFile NonHexField)
  end.

(** [CPIOInfo._from_file(fp)] *)
Definition _from_file : M File CPIOInfo :=
  offset <- tell ;;
  header <- read ENTRY_HEADER_size ;;
  if negb (len header =? ENTRY_HEADER_size) then raise (BadCPIOFile Truncated)
  else if negb (bytes_eqb (header_magic header) (b_lit "070701")) then
    raise (BadCPIOFile BadMagic)
  else
    ino <- parse_field (header_field 0 header) ;;
    mode <- parse_field (header_field 1 header) ;;
    uid <- parse_field (header_field 2 header) ;;
    gid <- parse_field (header_field 3 header) ;;
    nlink <- parse_field (header_field 4 header) ;;
    mtime <- parse_field (header_field 5 header) ;;
    filesize <- parse_field (header_field 6 header) ;;
    devmajor <- parse_field (header_field 7 header) ;;
    devminor <- parse_field (header_field 8 header) ;;
    rdevmajor <- parse_field (header_field 9 header) ;;
    rdevminor <- parse_field (header_field 10 header) ;;
    namesize <- parse_field (header_field 11 header) ;;
    if namesize =? 0 then raise (BadCPIOFile ZeroLengthName)
    else
      name <- read namesize ;;
      if negb (len name =? namesize) then raise (BadCPIOFile Truncated)
      else if negb (bz (last name x00) =? 0) then
        raise (BadCPIOFile NotNulTerminated)
      else
        match utf8_decode (removelast name) with
        | None => raise UnicodeDecodeError
        | Some name =>
          lift_res (CPIOInfo_init offset ino mode uid gid nlink mtime filesize
                      devmajor devminor rdevmajor rdevminor name)
        end.

(** The property [_offset_data]; [//] is floor division. *)
Definition _offset_data (self : CPIOInfo) : Z :=
  _offset self + (ENTRY_HEADER_size + len (_name self) + 1 + 3) / 4 * 4.

(** The property [_offset_after]. *)
Definition _offset_after (self : CPIOInfo) : Z :=
  _offset_data self + (filesize self + 3) / 4 * 4.

(** The property [name]. *)
Definition name (self : CPIOInfo) : res pystr :=
  match utf8_decode (_name self) with
  | Some s => Ok s
  | None => Raise UnicodeDecodeError
  end.

(** [CPIOInfo.encode] *)
Definition encode (self : CPIOInfo) : bytes :=
  let values :=
    [ino self; mode self; uid self; gid self; nlink self; mtime self;
     filesize self; devmajor self; devminor self; rdevmajor self;
     rdevminor self; len (_name self) + 1; 0] in
  let values := map format_08x values in
  let ret := ENTRY_HEADER_pack (b_lit "070701") values in
  let ret := ret ++ _name self ++ [x00] in
  ret ++ zeros ((4 - len ret mod 4) mod 4).

(** ** [class _ReadableMember]

    The [_fp] slot is the archive's file object, the state [_read] runs in. *)

Record _ReadableMember := mkReadableMember {
  _start : Z;
  _length : Z;
  _pos : Z
}.

Definition ReadableMember_init (info : CPIOInfo) : _ReadableMember :=
  mkReadableMember (_offset_data info) (filesize info) 0.

(** [_read(self, n, fn)] returns the bytes and the member as it then is. *)
Definition _read (self : _ReadableMember) (n : Z) (fn : Z -> M File bytes)
  : M File (bytes * _ReadableMember) :=
  let n := if (n <? 0) || (n >? _length self - _pos self)
           then _length self - _pos self else n in
  seek_set (_start self + _pos self) ;;;
  got <- fn n ;;
  ret (got, mkReadableMember (_start self) (_length self)
              (_pos self + len got)).

Definition ReadableMember_read (self : _ReadableMember) (n : Z) :=
  _read self n read.

(** ** [class CPIOFile] and [class _WriteableMember]

    One archive and the writer objects made for it live in a [World]; a
    writer is named by its index in [heap], so that two names for one writer
    see one state.  [DanglingHandle] is not a Python exception: it stands for
    a name that denotes no object, which [CPIOFile_open] never returns. *)

Record CPIOFile := mkCPIOFile {
  _fp : File;
  _writeable : bool;
  _writer_active : bool
}.

Record _WriteableMember := mkWriteableMember {
  _expected_length : Z;
  _actual_length : Z;
  _closed : bool
}.

Record World := mkWorld {
  archive : CPIOFile;
  heap : list _WriteableMember
}.

Definition handle := nat.

Definition on_fp {A} (m : M File A) : M World A := fun w =>
  let a := archive w in
  let '(r, f) := m (_fp a) in
  (r, mkWorld (mkCPIOFile f (_writeable a) (_writer_active a)) (heap w)).

Definition get_archive : M World CPIOFile := fun w => (Ok (archive w), w).

Definition set_writer_active (b : bool) : M World unit := fun w =>
  let a := archive w in
  (Ok tt, mkWorld (mkCPIOFile (_fp a) (_writeable a) b) (heap w)).

Definition alloc (o : _WriteableMember) : M World handle := fun w =>
  (Ok (List.length (heap w)), mkWorld (archive w) (heap w ++ [o])).

Fixpoint set_nth {A} (i : nat) (x : A) (l : list A) : list A :=
  match l, i with
  | [], _ => []
  | _ :: r, O => x :: r
  | y :: r, S i' => y :: set_nth i' x r
  end.

Definition deref (h : handle) : M World _WriteableMember := fun w =>
  match nth_error (heap w) h with
  | Some o => (Ok o, w)
  | None => (Raise DanglingHandle, w)
  end.

Definition assign (h : handle) (o : _WriteableMember) : M World unit :=
  fun w => (Ok tt, mkWorld (archive w) (set_nth h o (heap w))).

(** [CPIOFile.__init__(fp, mode)] *)
Definition CPIOFile_init (fp : File) (mode : string) : res World :=
  if negb (String.eqb mode "r" || String.eqb mode "w") then
    Raise (ValueError UnknownMode)
  else Ok (mkWorld (mkCPIOFile fp (String.eqb mode "w") false) []).

(** [_WriteableMember.__init__(archive, info)] *)
Definition WriteableMember_init (info : CPIOInfo) : M World handle :=
  a <- get_archive ;;
  if _writer_active a then raise (ValueError TwoWriters)
  else
    set_writer_active true ;;;
    self <- alloc (mkWriteableMember (filesize info) 0 false) ;;
    on_fp seek_end ;;;
    on_fp (write (encode info)) ;;;
    ret self.

(** [_WriteableMember.write(data)] *)
Definition WriteableMember_write (self : handle) (data : bytes)
  : M World unit :=
  on_fp seek_end ;;;
  on_fp (write data) ;;;
  o <- deref self ;;
  assign self (mkWriteableMember (_expected_length o)
                 (_actual_length o + len data) (_closed o)).

(** [_WriteableMember.close()] *)
Definition WriteableMember_close (self : handle) : M World unit :=
  o <- deref self ;;
  if _closed o then ret tt
  else if negb (_actual_length o =? _expected_length o) then
    raise (ValueError (LengthMismatch (_actual_length o) (_expected_length o)))
  else
    let padding := zeros ((4 - _actual_length o mod 4) mod 4) in
    on_fp seek_end ;;;
    on_fp (write padding) ;;;
    assign self (mkWriteableMember (_expected_length o) (_actual_length o)
                   true) ;;;
    set_writer_active false.

(** What [CPIOFile.open] returns. *)
Inductive member :=
| Readable (r : _ReadableMember)
| Writeable (w : handle).

(** [CPIOFile.open(info, mode)] *)
Definition CPIOFile_open (info : CPIOInfo) (mode : string) : M World member :=
  if String.eqb mode "r" then ret (Readable (ReadableMember_init info))
  else if String.eqb mode "w" then
    a <- get_archive ;;
    if _writeable a then
      w <- WriteableMember_init info ;;
      ret (Writeable w)
    else raise (ValueError ReadOnly)
  else raise (ValueError UnknownMode).

(** Leaving a [with] block closes the member; a reader's [close] is the
    one it inherits, which touches nothing of the archive. *)
Definition member_exit (m : member) : M World unit :=
  match m with
  | Writeable w => WriteableMember_close w
  | Readable _ => ret tt
  end.

Definition TRAILER : pystr := s_lit "TRAILER!!!".

(** [CPIOFile.close()] *)
Definition CPIOFile_close : M World unit :=
  a <- get_archive ;;
  if _writeable a then
    if _writer_active a then raise (ValueError CloseWhileWriting)
    else
      info <- lift_res (CPIOInfo_init 0 0 493 0 0 1 0 0 0 0 0 0 TRAILER) ;;
      m <- CPIOFile_open info "w" ;;
      member_exit m
  else ret tt.

(** ** The generator [CPIOFile.infolist]

    It is suspended at its [yield] with the yielded [info] in hand. *)

Inductive gen_state :=
| GenStart
| GenSuspended (info : CPIOInfo)
| GenFinished.

Inductive gen_result :=
| Yielded (info : CPIOInfo)
| StopIteration
| GenRaised (e : exn).

(** One turn of [while True:] up to the [yield], the [break] or a raise. *)
Definition infolist_body (f : File) : gen_result * gen_state * File :=
  match _from_file f with
  | (Ok info, f') =>
    match name info with
    | Ok s =>
      if pystr_eqb s TRAILER then (StopIteration, GenFinished, f')
      else (Yielded info, GenSuspended info, f')
    | Raise e => (GenRaised e, GenFinished, f')
    end
  | (Raise e, f') => (GenRaised e, GenFinished, f')
  end.

(** [next(gen)] *)
Definition infolist_next (g : gen_state) (f : File)
  : gen_result * gen_state * File :=
  match g with
  | GenStart =>
    match seek_set 0 f with
    | (Ok _, f') => infolist_body f'
    | (Raise e, f') => (GenRaised e, GenFinished, f')
    end
  | GenSuspended info =>
    match seek_set (_offset_after info) f with
    | (Ok _, f') => infolist_body f'
    | (Raise e, f') => (GenRaised e, GenFinished, f')
    end
  | GenFinished => (StopIteration, GenFinished, f)
  end.

(** How a loop over the generator ended. *)
Inductive outcome :=
| Exhausted
| Failed (e : exn)
| OutOfFuel.

(** [for info in gen: ...] with nothing else touching the file: the
    descriptors yielded in at most [fuel] calls of [next], and how it ended. *)
Fixpoint infolist_run (fuel : nat) (g : gen_state) (f : File)
  : list CPIOInfo * outcome * File :=
  match fuel with
  | O => ([], OutOfFuel, f)
  | S fuel' =>
    match infolist_next g f with
    | (Yielded info, g', f') =>
      let '(l, o, f'') := infolist_run fuel' g' f' in (info :: l, o, f'')
    | (StopIteration, _, f') => ([], Exhausted, f')
    | (GenRaised e, _, f') => ([], Failed e, f')
    end
  end.

(** [self.infolist()] run from the start. *)
Definition infolist (fuel : nat) (f : File) : list CPIOInfo * outcome * File :=
  infolist_run fuel GenStart f.

(** [align4]: round up to the next multiple of 4. *)
Definition align4 (x : Z) : Z := x + (- x) mod 4.

(** ** States and values the properties are stated with *)

(** The world a successful construction of a writer leaves. *)
Definition opened_world (w : World) (info : CPIOInfo) : World :=
  let f := _fp (archive w) in
  mkWorld
    (mkCPIOFile
       (mkFile (content f ++ encode info)
          (len (content f) + len (encode info)))
       (_writeable (archive w)) true)
    (heap w ++ [mkWriteableMember (filesize info) 0 false]).

(** The world a successful first [close] of a writer leaves. *)
Definition closed_world (w : World) (self : handle) (o : _WriteableMember)
  (pad : Z) : World :=
  let f := _fp (archive w) in
  mkWorld
    (mkCPIOFile (mkFile (content f ++ zeros pad) (len (content f) + pad))
       (_writeable (archive w)) false)
    (set_nth self
       (mkWriteableMember (_expected_length o) (_actual_length o) true)
       (heap w)).

(** The world in which a first writer, declared with five bytes, has
    written two of them. *)
Definition world_one_writer : World :=
  mkWorld (mkCPIOFile (mkFile (b_lit "0123") 4) true true)
          [mkWriteableMember 5 2 false].

(** A writer that has written the five bytes it declared. *)
Definition world_full_writer : World :=
  mkWorld (mkCPIOFile (mkFile (b_lit "01234") 5) true true)
          [mkWriteableMember 5 5 false].

(** The descriptor [CPIOFile.close] builds for the trailer. *)
Definition trailer_info : CPIOInfo :=
  mkCPIOInfo 0 0 493 0 0 1 0 0 0 0 0 0 (b_lit "TRAILER!!!").

(** The 124 bytes of the trailer entry. *)
Definition trailer_entry : bytes :=
  b_lit "07070100000000000001ed0000000000000000000000010000000000000000000000000000000000000000000000000000000b00000000TRAILER!!!"
  ++ [x00; x00; x00; x00].

(** The generator states from which the next header is read at a multiple
    of 4. *)
Definition gen_aligned (g : gen_state) : Prop :=
  match g with
  | GenSuspended info => _offset info mod 4 = 0
  | _ => True
  end.

(** The member of the running example: [hello.txt] holding [world]. *)
Definition hello_info : CPIOInfo :=
  mkCPIOInfo 0 1 33188 1000 1000 1 1700000000 5 8 1 0 0 (b_lit "hello.txt").

(** The store after writing that member and closing the archive. *)
Definition hello_store : bytes :=
  encode hello_info ++ b_lit "world" ++ [x00; x00; x00] ++ trailer_entry.

(** A single entry whose [filesize] field is the signed literal [-0000070]
    and whose name is [a]. *)
Definition looping_store : bytes :=
  b_lit "070701000000000000000000000000000000000000000000000000-0000070000000000000000000000000000000000000000200000000a"
  ++ [x00].

Definition looping_info : CPIOInfo :=
  mkCPIOInfo 0 0 0 0 0 0 0 (-112) 0 0 0 0 (b_lit "a").

(** The bytes CPython's base-16 literal grammar admits at all: hex digits,
    ASCII white space, the signs, the underscore and the [x] of the
    prefix. *)
Definition literal_char (b : byte) : bool :=
  is_hex_digit b || is_space b || Byte.eqb b ch_plus || Byte.eqb b ch_minus
  || Byte.eqb b ch_underscore || Byte.eqb b ch_x || Byte.eqb b ch_X.

Definition lit (b : byte) : Prop := literal_char b = true.

(** The 110 bytes [_from_file] reads at the cursor, and the file after. *)
Definition header_at (f : File) : bytes :=
  firstn 110 (skipn (Z.to_nat (cursor f)) (content f)).

Definition after_header (f : File) : File :=
  mkFile (content f) (cursor f + len (header_at f)).

(** The [namesize] bytes it reads next, for a positive [namesize]. *)
Definition name_at (f : File) (namesize : Z) : bytes :=
  firstn (Z.to_nat namesize)
    (skipn (Z.to_nat (cursor (after_header f))) (content f)).

(** The numeric fields of a descriptor are the ones a header holds. *)
Definition fields_of (header : bytes) (d : CPIOInfo) : Prop :=
  int16 (header_field 0 header) = Some (ino d)
  /\ int16 (header_field 1 header) = Some (mode d)
  /\ int16 (header_field 2 header) = Some (uid d)
  /\ int16 (header_field 3 header) = Some (gid d)
  /\ int16 (header_field 4 header) = Some (nlink d)
  /\ int16 (header_field 5 header) = Some (mtime d)
  /\ int16 (header_field 6 header) = Some (filesize d)
  /\ int16 (header_field 7 header) = Some (devmajor d)
  /\ int16 (header_field 8 header) = Some (devminor d)
  /\ int16 (header_field 9 header) = Some (rdevmajor d)
  /\ int16 (header_field 10 header) = Some (rdevminor d).

(** A well-formed entry named [a] whose [check] field is [zzzzzzzz]. *)
Definition unchecked_store : bytes :=
  b_lit "070701000000000000000000000000000000000000000000000000000000000000000000000000000000000000000000000002zzzzzzzz" ++ b_lit "a" ++ [x00].

(** The same entry with [ino] written as the signed, prefixed, underscored
    and space-padded literal [ -0x1_f ]. *)
Definition lenient_store : bytes :=
  b_lit "070701 -0x1_f 000000000000000000000000000000000000000000000000000000000000000000000000000000000000000200000000" ++ b_lit "a" ++ [x00].

(** An entry whose [namesize] is 4 and whose name bytes are [a], NUL, [b],
    NUL. *)
Definition nul_name_store : bytes :=
  b_lit "07070100000000000000000000000000000000000000000000000000000000000000000000000000000000000000000000000400000000" ++ [zb 97; x00; zb 98; x00].

(** An entry whose [namesize] is 1 and whose name bytes are one NUL. *)
Definition empty_name_store : bytes :=
  b_lit "07070100000000000000000000000000000000000000000000000000000000000000000000000000000000000000000000000100000000" ++ [x00].

(** An entry whose [gid] field holds a [g]. *)
Definition non_hex_store : bytes :=
  b_lit "0707010000000000000000000000000000g000000000000000000000000000000000000000000000000000000000000000000200000000" ++ b_lit "a" ++ [x00].

(** An entry whose [namesize] field is zero. *)
Definition zero_namesize_store : bytes :=
  b_lit "07070100000000000000000000000000000000000000000000000000000000000000000000000000000000000000000000000000000000".

Definition plain_info (offset nm_ino : Z) (nm : bytes) : CPIOInfo :=
  mkCPIOInfo offset nm_ino 0 0 0 0 0 0 0 0 0 0 nm.

(** A byte that is the hex digit of value [d] and nothing else to the
    literal parser. *)
Definition plain_digit (c : byte) (d : Z) : Prop :=
  0 <= d < 16 /\ digit_value c = d /\ is_hex_digit c = true
  /\ is_space c = false /\ Byte.eqb c ch_plus = false
  /\ Byte.eqb c ch_minus = false /\ Byte.eqb c ch_underscore = false
  /\ Byte.eqb c ch_x = false /\ Byte.eqb c ch_X = false.

(** The values of the [n] low hex digits of [x], most significant first. *)
Fixpoint hex_digits (n : nat) (x : Z) : list Z :=
  match n with
  | O => []
  | S n' => hex_digits n' (x / 16) ++ [x mod 16]
  end.

Definition horner (acc : Z) (ds : list Z) : Z :=
  fold_left (fun a d => a * 16 + d) ds acc.

(** A value that fits an 8-digit field. *)
Definition u32 (x : Z) : Prop := 0 <= x < 4294967296.

(** A descriptor whose twelve header values each fit eight hex digits. *)
Definition fits_header (d : CPIOInfo) : Prop :=
  u32 (ino d) /\ u32 (mode d) /\ u32 (uid d) /\ u32 (gid d) /\ u32 (nlink d)
  /\ u32 (mtime d) /\ u32 (filesize d) /\ u32 (devmajor d)
  /\ u32 (devminor d) /\ u32 (rdevmajor d) /\ u32 (rdevminor d)
  /\ u32 (len (_name d) + 1).

(** The 110 header bytes of such a descriptor. *)
Definition header_of (d : CPIOInfo) : bytes :=
  b_lit "070701"
  ++ List.concat
       (map (hex_fixed 8)
          [ino d; mode d; uid d; gid d; nlink d; mtime d; filesize d;
           devmajor d; devminor d; rdevmajor d; rdevminor d;
           len (_name d) + 1; 0]).

(** The descriptor [d] as it is found at header offset [o]. *)
Definition at_offset (o : Z) (d : CPIOInfo) : CPIOInfo :=
  mkCPIOInfo o (ino d) (mode d) (uid d) (gid d) (nlink d) (mtime d)
    (filesize d) (devmajor d) (devminor d) (rdevmajor d) (rdevminor d)
    (_name d).

(** [for chunk in chunks: member.write(chunk)] *)
Fixpoint write_chunks (self : handle) (chunks : list bytes) : M World unit :=
  match chunks with
  | [] => ret tt
  | c :: r => WriteableMember_write self c ;;; write_chunks self r
  end.

(** [with archive.open(info, "w") as member:] followed by the writes. *)
Definition write_member (info : CPIOInfo) (chunks : list bytes)
  : M World unit :=
  m <- CPIOFile_open info "w" ;;
  match m with
  | Writeable self => write_chunks self chunks ;;; member_exit m
  | Readable _ => member_exit m
  end.

(** The generator will read its next header at position [p]. *)
Definition points_to (g : gen_state) (p : Z) : Prop :=
  match g with
  | GenStart => p = 0
  | GenSuspended info => _offset_after info = p
  | GenFinished => False
  end.

(** The bytes a member takes in the store: header, name, data, padding. *)
Definition entry (info : CPIOInfo) (data : bytes) : bytes :=
  encode info ++ data ++ zeros ((4 - len data mod 4) mod 4).

(** The archive just opened for writing over an empty store. *)
Definition fresh_world : World :=
  mkWorld (mkCPIOFile (mkFile [] 0) true false) [].

(** [member = archive.open(d, "r")], then [member.read()] twice. *)
Definition read_twice (d : CPIOInfo) : M World (bytes * bytes) :=
  m <- CPIOFile_open d "r" ;;
  match m with
  | Readable r =>
    x <- on_fp (ReadableMember_read r (-1)) ;;
    y <- on_fp (ReadableMember_read (snd x) (-1)) ;;
    ret (fst x, fst y)
  | Writeable _ => ret ([], [])
  end.

(** An archive opened for reading over the bytes [c], its cursor anywhere. *)
Definition reading_world (c : bytes) (cur : Z) : World :=
  mkWorld (mkCPIOFile (mkFile c cur) false false) [].

(** A member as the data model has it: header values of 32 bits, a name
    that is valid UTF-8 and not the trailer's, data of the declared size. *)
Definition sound_member (m : CPIOInfo * bytes) : Prop :=
  fits_header (fst m)
  /\ (exists s, utf8_decode (_name (fst m)) = Some s /\ s <> TRAILER)
  /\ len (snd m) = filesize (fst m).

(** The store that holds the members [ms], one entry after the other. *)
Fixpoint archive_bytes (ms : list (CPIOInfo * bytes)) : bytes :=
  match ms with
  | [] => []
  | m :: r => entry (fst m) (snd m) ++ archive_bytes r
  end.

(** Their descriptors as found from offset [o] on. *)
Fixpoint descriptors (o : Z) (ms : list (CPIOInfo * bytes)) : list CPIOInfo :=
  match ms with
  | [] => []
  | m :: r =>
    at_offset o (fst m) :: descriptors (o + len (entry (fst m) (snd m))) r
  end.

(** A member named like the trailer, holding four bytes. *)
Definition trailer_named_info : CPIOInfo :=
  mkCPIOInfo 0 1 33188 0 0 1 0 4 0 0 0 0 (b_lit "TRAILER!!!").

(** An earlier member, [a] holding [xyz]. *)
Definition earlier_info : CPIOInfo :=
  mkCPIOInfo 0 7 33188 0 0 1 0 3 0 0 0 0 (b_lit "a").

(** A writeable archive over the store that holds [earlier_info]. *)
Definition earlier_world : World :=
  mkWorld
    (mkCPIOFile
       (mkFile (archive_bytes [(earlier_info, b_lit "xyz")]) 0) true false)
    [].

(** The world after writing that member to a fresh archive, and the world
    after closing the archive. *)
Definition trailer_named_world : World :=
  mkWorld
    (mkCPIOFile
       (mkFile (entry trailer_named_info (b_lit "data")) 128) true false)
    [mkWriteableMember 4 4 true].

Definition trailer_named_closed : World :=
  mkWorld
    (mkCPIOFile
       (mkFile (entry trailer_named_info (b_lit "data") ++ trailer_entry) 252)
       true false)
    [mkWriteableMember 4 4 true; mkWriteableMember 0 0 true].

(** ** Further values the properties are stated with *)

(** A code point [str.encode()] can encode: any but the surrogates. *)
Definition unicode_scalar (c : Z) : Prop :=
  0 <= c < 55296 \/ 57343 < c < 1114112.

(** [CPIOFile.__enter__] returns the archive itself; [CPIOFile.__exit__]
    calls [close] whatever happened in the block. *)
Definition CPIOFile_exit : M World unit := CPIOFile_close.

(** [with archive: body]: the block, then [__exit__]; an exception of
    [__exit__] replaces the one of the block, which otherwise goes on. *)
Definition with_archive {A} (body : M World A) : M World A := fun w =>
  match body w with
  | (Ok a, w1) =>
    match CPIOFile_exit w1 with
    | (Ok _, w2) => (Ok a, w2)
    | (Raise e, w2) => (Raise e, w2)
    end
  | (Raise e, w1) =>
    match CPIOFile_exit w1 with
    | (Ok _, w2) => (Raise e, w2)
    | (Raise e', w2) => (Raise e', w2)
    end
  end.

(** A header with the magic, eleven zero fields, the given [namesize]
    field and a zero [check]. *)
Definition plain_header (namesize_field : string) : bytes :=
  b_lit "0707010000000000000000000000000000000000000000000000000000000000000000000000000000000000000000"
  ++ b_lit namesize_field ++ b_lit "00000000".

(** The generator is suspended at a descriptor whose header offset is not
    negative, or has not started. *)
Definition gen_nonneg (g : gen_state) : Prop :=
  match g with
  | GenSuspended info => 0 <= _offset info
  | _ => True
  end.

(** The generator is suspended at a descriptor of negative size. *)
Definition gen_negative (g : gen_state) : Prop :=
  match g with
  | GenSuspended info => filesize info < 0
  | _ => False
  end.

(** The world after [write(data)] on the writer [self], whose state was
    [o]. *)
Definition written_world (w : World) (self : handle) (o : _WriteableMember)
  (data : bytes) : World :=
  let f := _fp (archive w) in
  mkWorld
    (mkCPIOFile
       (mkFile (content f ++ data) (len (content f) + len data))
       (_writeable (archive w)) (_writer_active (archive w)))
    (set_nth self
       (mkWriteableMember (_expected_length o) (_actual_length o + len data)
          (_closed o))
       (heap w)).

(** The store of [w'] is the store of [w] with bytes added at its end. *)
Definition appends (w w' : World) : Prop :=
  exists added,
    content (_fp (archive w')) = content (_fp (archive w)) ++ added.

(** A single entry whose [filesize] field is [-0000100], named [a]: its
    end lies before the start of the store. *)
Definition negative_seek_store : bytes :=
  b_lit "070701000000000000000000000000000000000000000000000000-0000100000000000000000000000000000000000000000200000000a"
  ++ [x00].

(** For each member: [with archive.open(info, "w") as m: m.write(data)]. *)
Fixpoint write_members (ms : list (CPIOInfo * bytes)) : M World unit :=
  match ms with
  | [] => ret tt
  | m :: r => write_member (fst m) [snd m] ;;; write_members r
  end.

(** * Properties *)

(** ** Bytes, lengths and the file object *)

Lemma bz_range (b : byte) : 0 <= bz b < 256.
Proof.
  unfold bz. pose proof (Byte.to_N_bounded b) as H. lia.
Qed.

Lemma zb_bz (b : byte) : zb (bz b) = b.
Proof.
  unfold zb, bz. rewrite N2Z.id, Byte.of_to_N. reflexivity.
Qed.

Lemma bz_zb (z : Z) : 0 <= z < 256 -> bz (zb z) = z.
Proof.
  intros H. unfold zb, bz.
  destruct (Byte.of_N (Z.to_N z)) as [b|] eqn:E.
  - apply Byte.to_of_N in E. rewrite E. lia.
  - apply Byte.of_N_None_iff in E. lia.
Qed.

Lemma bz_inj (a b : byte) : bz a = bz b -> a = b.
Proof.
  intros H. rewrite <- (zb_bz a), <- (zb_bz b), H. reflexivity.
Qed.

Lemma len_nonneg {A} (l : list A) : 0 <= len l.
Proof. unfold len. lia. Qed.

Lemma len_app {A} (a b : list A) : len (a ++ b) = len a + len b.
Proof. unfold len. rewrite length_app. lia. Qed.

Lemma len_cons {A} (x : A) (l : list A) : len (x :: l) = 1 + len l.
Proof. unfold len. cbn [List.length]. lia. Qed.

Lemma len_zeros (n : Z) : 0 <= n -> len (zeros n) = n.
Proof. intros H. unfold len, zeros. rewrite repeat_length. lia. Qed.

Lemma to_nat_len {A} (l : list A) : Z.to_nat (len l) = List.length l.
Proof. unfold len. lia. Qed.

(** Writing at the end of the store appends. *)
Lemma write_at_end (c data : bytes) :
  write data (mkFile c (len c)) = (Ok tt, mkFile (c ++ data) (len c + len data)).
Proof.
  destruct data as [|d data].
  - simpl. rewrite app_nil_r. unfold len at 2. simpl. rewrite Z.add_0_r.
    reflexivity.
  - unfold write. cbn [cursor content]. rewrite to_nat_len, firstn_all.
    rewrite Z.sub_diag. cbn [zeros Z.to_nat repeat]. rewrite app_nil_r.
    rewrite skipn_all2 by lia. rewrite app_nil_r. reflexivity.
Qed.

Lemma append_at_end (f : File) (data : bytes) :
  (seek_end ;;; write data) f
  = (Ok tt, mkFile (content f ++ data) (len (content f) + len data)).
Proof.
  unfold bind, seek_end. apply write_at_end.
Qed.

(** The padding that follows [n] bytes. *)
Lemma padding_bounds (n : Z) :
  0 <= (4 - n mod 4) mod 4 < 4 /\ (n + (4 - n mod 4) mod 4) mod 4 = 0.
Proof.
  split.
  - apply Z.mod_pos_bound. lia.
  - pose proof (Z.mod_pos_bound n 4 ltac:(lia)) as Hn.
    pose proof (Z.div_mod n 4 ltac:(lia)) as Hd.
    destruct (Z.eq_dec (n mod 4) 0) as [E|E].
    + rewrite E. change ((4 - 0) mod 4) with 0. rewrite Z.add_0_r. exact E.
    + rewrite (Z.mod_small (4 - n mod 4)) by lia.
      replace (n + (4 - n mod 4)) with ((n / 4 + 1) * 4) by lia.
      apply Z.mod_mul. lia.
Qed.


Lemma writer_init_latched (w : World) (info : CPIOInfo) :
  _writer_active (archive w) = true ->
  WriteableMember_init info w = (Raise (ValueError TwoWriters), w).
Proof.
  intros Hl. unfold WriteableMember_init, bind, get_archive. rewrite Hl.
  reflexivity.
Qed.

Lemma writer_init_ok (w : World) (info : CPIOInfo) :
  _writer_active (archive w) = false ->
  WriteableMember_init info w
  = (Ok (List.length (heap w)), opened_world w info).
Proof.
  intros Hl. unfold WriteableMember_init. unfold bind at 1.
  unfold get_archive. rewrite Hl.
  destruct w as [[f wr la] hp].
  unfold bind, set_writer_active, alloc, on_fp, seek_end, opened_world.
  cbn [archive _fp _writeable _writer_active heap content cursor].
  rewrite write_at_end. reflexivity.
Qed.


(** ** The single-writer latch and the member streams *)

(** C7: while the latch of the archive is set, constructing a write stream
    raises the two-writers [ValueError] whatever the descriptor is, directly
    or through [open(info, "w")] on a writeable archive, and the world (the
    store, the latch, and every writer object with its accumulated length
    and closed flag) is left as it was. *)
Theorem second_writer_refused (w : World) (info : CPIOInfo) :
  _writer_active (archive w) = true ->
  WriteableMember_init info w = (Raise (ValueError TwoWriters), w)
  /\ (_writeable (archive w) = true ->
      CPIOFile_open info "w" w = (Raise (ValueError TwoWriters), w)).
Proof.
  intros Hlatch.
  assert (Hinit : WriteableMember_init info w
                  = (Raise (ValueError TwoWriters), w))
    by (apply writer_init_latched; exact Hlatch).
  split; [exact Hinit|].
  intros Hw. unfold CPIOFile_open. cbn [String.eqb Ascii.eqb Bool.eqb].
  unfold bind at 1. unfold get_archive at 1. rewrite Hw.
  unfold bind. rewrite Hinit. reflexivity.
Qed.


Lemma second_writer_refused_witness :
  WriteableMember_init (mkCPIOInfo 0 0 0 0 0 0 0 0 0 0 0 0 (b_lit "a"))
    world_one_writer
  = (Raise (ValueError TwoWriters), world_one_writer)
  /\ (_writeable (archive world_one_writer) = true ->
      CPIOFile_open (mkCPIOInfo 0 0 0 0 0 0 0 0 0 0 0 0 (b_lit "a")) "w"
        world_one_writer
      = (Raise (ValueError TwoWriters), world_one_writer)).
Proof.
  apply (second_writer_refused world_one_writer). reflexivity.
Defined.


Lemma writer_close_mismatch (w : World) (self : handle)
  (o : _WriteableMember) :
  nth_error (heap w) self = Some o ->
  _closed o = false ->
  _actual_length o <> _expected_length o ->
  WriteableMember_close self w
  = (Raise (ValueError (LengthMismatch (_actual_length o)
                          (_expected_length o))), w).
Proof.
  intros Hh Hc Hl. unfold WriteableMember_close, bind, deref.
  rewrite Hh, Hc. apply Z.eqb_neq in Hl. rewrite Hl. reflexivity.
Qed.

Lemma writer_close_ok (w : World) (self : handle) (o : _WriteableMember) :
  nth_error (heap w) self = Some o ->
  _closed o = false ->
  _actual_length o = _expected_length o ->
  WriteableMember_close self w
  = (Ok tt, closed_world w self o ((4 - _actual_length o mod 4) mod 4)).
Proof.
  intros Hh Hc Hl.
  destruct (padding_bounds (_actual_length o)) as [Hb _].
  unfold WriteableMember_close. unfold bind at 1. unfold deref.
  rewrite Hh, Hc. apply Z.eqb_eq in Hl. rewrite Hl. cbn [negb].
  destruct w as [[f wr la] hp].
  unfold bind, on_fp, seek_end, assign, set_writer_active, closed_world.
  cbn [archive _fp _writeable _writer_active heap content cursor].
  rewrite write_at_end. rewrite len_zeros by lia. reflexivity.
Qed.

Lemma set_nth_last {A} (l : list A) (x y : A) :
  set_nth (List.length l) x (l ++ [y]) = l ++ [x].
Proof.
  induction l as [|z l IH]; [reflexivity|].
  cbn [List.length app set_nth]. f_equal. exact IH.
Qed.

(** C8: the first [close] of a writer whose accumulated length differs from
    the declared one raises the length-mismatch [ValueError] and leaves the
    world as it was: nothing appended to the store, the writer not marked
    closed, the latch as it was held.  With equal lengths it appends
    [pad < 4] zero bytes, [pad] completing the written length to a multiple
    of 4, marks the writer closed and clears the latch. *)
Theorem writer_close_checks_length (w : World) (self : handle)
  (o : _WriteableMember) :
  nth_error (heap w) self = Some o ->
  _closed o = false ->
  (_actual_length o <> _expected_length o ->
   WriteableMember_close self w
   = (Raise (ValueError (LengthMismatch (_actual_length o)
                           (_expected_length o))), w))
  /\ (_actual_length o = _expected_length o ->
      exists pad,
        0 <= pad < 4 /\ (_actual_length o + pad) mod 4 = 0
        /\ WriteableMember_close self w = (Ok tt, closed_world w self o pad)).
Proof.
  intros Hh Hc. split; intros Hl.
  - apply writer_close_mismatch; assumption.
  - exists ((4 - _actual_length o mod 4) mod 4).
    destruct (padding_bounds (_actual_length o)) as [Hb Hm].
    split; [exact Hb|]. split; [exact Hm|].
    apply writer_close_ok; assumption.
Qed.


Lemma writer_close_checks_length_witness :
  WriteableMember_close 0%nat world_one_writer
  = (Raise (ValueError (LengthMismatch 2 5)), world_one_writer)
  /\ exists pad,
       0 <= pad < 4 /\ (5 + pad) mod 4 = 0
       /\ WriteableMember_close 0%nat world_full_writer
          = (Ok tt, closed_world world_full_writer 0%nat
                      (mkWriteableMember 5 5 false) pad).
Proof.
  split.
  - apply (writer_close_checks_length world_one_writer 0%nat
             (mkWriteableMember 5 2 false)); [reflexivity|reflexivity|].
    cbn. lia.
  - apply (writer_close_checks_length world_full_writer 0%nat
             (mkWriteableMember 5 5 false)); reflexivity.
Defined.

(** ** Opening members and closing the archive *)

(** C10: [open(info, "r")] returns a read stream on every archive, writeable
    or not, with the latch set or not, and changes nothing.  The read-only
    [ValueError] is raised exactly for mode ["w"] on an archive that is not
    writeable, the unknown-mode [ValueError] exactly for a mode other than
    ["r"] and ["w"]. *)
Theorem open_read_ignores_archive_mode (w : World) (info : CPIOInfo)
  (mode : string) :
  CPIOFile_open info "r" w = (Ok (Readable (ReadableMember_init info)), w)
  /\ (fst (CPIOFile_open info mode w) = Raise (ValueError ReadOnly)
      <-> mode = "w"%string /\ _writeable (archive w) = false)
  /\ (fst (CPIOFile_open info mode w) = Raise (ValueError UnknownMode)
      <-> mode <> "r"%string /\ mode <> "w"%string).
Proof.
  split; [reflexivity|].
  unfold CPIOFile_open.
  destruct (String.eqb mode "r") eqn:Er.
  { apply String.eqb_eq in Er. subst mode. cbn.
    split; split; intros H; try discriminate; destruct H as [H1 H2];
      try discriminate; exfalso; apply H1; reflexivity. }
  destruct (String.eqb mode "w") eqn:Ew.
  - apply String.eqb_eq in Ew. subst mode.
    unfold bind at 1 3. unfold get_archive.
    destruct (_writeable (archive w)) eqn:Hw.
    + assert (Hne : forall v,
                fst (bind (WriteableMember_init info)
                       (fun h => ret (Writeable h)) w)
                = Raise (ValueError v) -> v = TwoWriters).
      { intros v. unfold bind at 1.
        destruct (_writer_active (archive w)) eqn:Hl.
        - rewrite (writer_init_latched w info Hl). cbn [fst].
          intros H. inversion H. reflexivity.
        - rewrite (writer_init_ok w info Hl). cbn [fst ret]. discriminate. }
      split; split; intros H.
      * apply Hne in H. discriminate.
      * destruct H; discriminate.
      * apply Hne in H. discriminate.
      * destruct H; congruence.
    + cbn. split; split; intros H; auto; try discriminate.
      destruct H; congruence.
  - apply String.eqb_neq in Er, Ew. cbn.
    split; split; intros H; auto; try discriminate.
    destruct H; congruence.
Qed.



Lemma trailer_info_init :
  CPIOInfo_init 0 0 493 0 0 1 0 0 0 0 0 0 TRAILER = Ok trailer_info.
Proof. reflexivity. Qed.

Lemma encode_trailer : encode trailer_info = trailer_entry.
Proof. vm_compute. reflexivity. Qed.

Lemma archive_close_ok (w : World) :
  _writeable (archive w) = true ->
  _writer_active (archive w) = false ->
  CPIOFile_close w
  = (Ok tt,
     mkWorld
       (mkCPIOFile
          (mkFile (content (_fp (archive w)) ++ encode trailer_info)
             (len (content (_fp (archive w))) + 124))
          true false)
       (heap w ++ [mkWriteableMember 0 0 true])).
Proof.
  intros Hw Hl. destruct w as [[f wr la] hp].
  cbn [archive _writeable _writer_active] in Hw, Hl. subst wr la.
  cbn [archive _fp heap].
  unfold CPIOFile_close. unfold bind at 1. unfold get_archive.
  cbn [archive _writeable _writer_active].
  unfold bind at 1. unfold lift_res. rewrite trailer_info_init.
  unfold bind at 1. unfold CPIOFile_open.
  cbn [String.eqb Ascii.eqb Bool.eqb].
  unfold bind at 1 2. unfold get_archive. cbn [archive _writeable].
  rewrite writer_init_ok by reflexivity.
  unfold ret, member_exit. cbn [heap].
  rewrite (writer_close_ok _ _ (mkWriteableMember 0 0 false));
    [| unfold opened_world; cbn [heap];
       rewrite nth_error_app2, Nat.sub_diag by lia; reflexivity
     | reflexivity | reflexivity ].
  unfold closed_world, opened_world.
  cbn [archive _fp _writeable _writer_active heap content cursor
       _actual_length _expected_length filesize trailer_info].
  change (zeros ((4 - 0 mod 4) mod 4)) with (@nil byte).
  rewrite app_nil_r, set_nth_last.
  replace (len (content f ++ encode trailer_info) + (4 - 0 mod 4) mod 4)
    with (len (content f) + 124)
    by (rewrite len_app, encode_trailer;
        change (len trailer_entry) with 124;
        change ((4 - 0 mod 4) mod 4) with 0; lia).
  reflexivity.
Qed.

Lemma archive_close_latched (w : World) :
  _writeable (archive w) = true ->
  _writer_active (archive w) = true ->
  CPIOFile_close w = (Raise (ValueError CloseWhileWriting), w).
Proof.
  intros Hw Hl. unfold CPIOFile_close, bind, get_archive.
  rewrite Hw, Hl. reflexivity.
Qed.

(** C9: closing a writeable archive whose latch is clear appends exactly the
    trailer entry to the store: the encoding of the descriptor named
    [TRAILER!!!] with [filesize] 0, [ino] 0, [mode] 0o755, [nlink] 1 and the
    other numeric fields 0, which is the 110-byte header, the name, its NUL
    and three padding NULs (124 bytes, a multiple of 4), with no data bytes
    after it; the latch is clear again afterwards.  With the latch set it
    raises the close-while-writing [ValueError] and changes nothing. *)
Theorem close_appends_trailer (w : World) :
  _writeable (archive w) = true ->
  (_writer_active (archive w) = false ->
   CPIOFile_close w
   = (Ok tt,
      mkWorld
        (mkCPIOFile
           (mkFile (content (_fp (archive w)) ++ encode trailer_info)
              (len (content (_fp (archive w))) + 124))
           true false)
        (heap w ++ [mkWriteableMember 0 0 true])))
  /\ (_writer_active (archive w) = true ->
      CPIOFile_close w = (Raise (ValueError CloseWhileWriting), w))
  /\ encode trailer_info = trailer_entry
  /\ name trailer_info = Ok TRAILER
  /\ (ino trailer_info, mode trailer_info, nlink trailer_info,
      filesize trailer_info) = (0, 493, 1, 0)
  /\ (uid trailer_info, gid trailer_info, mtime trailer_info,
      devmajor trailer_info, devminor trailer_info, rdevmajor trailer_info,
      rdevminor trailer_info) = (0, 0, 0, 0, 0, 0, 0)
  /\ len (encode trailer_info) mod 4 = 0.
Proof.
  intros Hw.
  split; [apply archive_close_ok; exact Hw|].
  split; [apply archive_close_latched; exact Hw|].
  split; [apply encode_trailer|]. repeat split.
Qed.

Lemma close_appends_trailer_witness :
  CPIOFile_close (mkWorld (mkCPIOFile (mkFile [] 0) true false) [])
  = (Ok tt, mkWorld (mkCPIOFile (mkFile trailer_entry 124) true false)
              [mkWriteableMember 0 0 true])
  /\ CPIOFile_close world_one_writer
     = (Raise (ValueError CloseWhileWriting), world_one_writer).
Proof.
  split.
  - rewrite <- encode_trailer.
    apply (close_appends_trailer
             (mkWorld (mkCPIOFile (mkFile [] 0) true false) []));
      reflexivity.
  - apply (close_appends_trailer world_one_writer); reflexivity.
Defined.

(** ** Stepping through monadic code *)

Lemma bind_ok {S A B} (m : M S A) (k : A -> M S B) (s s2 : S) (b : B) :
  bind m k s = (Ok b, s2) ->
  exists a s1, m s = (Ok a, s1) /\ k a s1 = (Ok b, s2).
Proof.
  unfold bind. destruct (m s) as [[a|e] s1]; intros H.
  - exists a, s1. split; [reflexivity|exact H].
  - discriminate.
Qed.

Lemma parse_field_ok (field : bytes) (f f' : File) (v : Z) :
  parse_field field f = (Ok v, f') -> int16 field = Some v /\ f' = f.
Proof.
  unfold parse_field. destruct (int16 field) as [x|]; cbn; intros H.
  - inversion H. split; reflexivity.
  - discriminate.
Qed.

(** ** Offsets *)

Lemma align4_spec (x : Z) :
  align4 x mod 4 = 0 /\ x <= align4 x < x + 4.
Proof.
  unfold align4. pose proof (Z.mod_pos_bound (- x) 4 ltac:(lia)) as Hb.
  split; [|lia].
  pose proof (Z.div_mod (- x) 4 ltac:(lia)) as Hd.
  replace (x + (- x) mod 4) with ((- ((- x) / 4)) * 4) by lia.
  apply Z.mod_mul. lia.
Qed.

(** The code's rounding is [align4]. *)
Lemma round_up_is_align4 (x : Z) : (x + 3) / 4 * 4 = align4 x.
Proof.
  destruct (align4_spec x) as [Hm Hb].
  apply Z.mod_divide in Hm; [|lia]. destruct Hm as [k Hk].
  rewrite Hk in *. f_equal.
  symmetry. apply (Z.div_unique (x + 3) 4 k (x + 3 - 4 * k)); lia.
Qed.

(** On a header offset that is a multiple of 4, adding the rounded size is
    rounding the sum. *)
Lemma align4_shift (o x : Z) : o mod 4 = 0 -> o + align4 x = align4 (o + x).
Proof.
  intros Ho. apply Z.mod_divide in Ho; [|lia]. destruct Ho as [k Hk].
  subst o. rewrite <- !round_up_is_align4.
  replace (k * 4 + x + 3) with (x + 3 + k * 4) by lia.
  rewrite Z.div_add by lia. lia.
Qed.

Lemma offset_data_aligned (d : CPIOInfo) :
  _offset d mod 4 = 0 ->
  _offset_data d = align4 (_offset d + 110 + len (_name d) + 1)
  /\ _offset_data d mod 4 = 0.
Proof.
  intros Ho. unfold _offset_data, ENTRY_HEADER_size.
  rewrite round_up_is_align4, align4_shift by exact Ho.
  split; [f_equal; lia|]. apply align4_spec.
Qed.

Lemma offset_after_aligned (d : CPIOInfo) :
  _offset d mod 4 = 0 ->
  _offset_after d = align4 (_offset_data d + filesize d)
  /\ _offset_after d mod 4 = 0.
Proof.
  intros Ho. destruct (offset_data_aligned d Ho) as [_ Hd].
  unfold _offset_after. rewrite round_up_is_align4, align4_shift by exact Hd.
  split; [reflexivity|]. apply align4_spec.
Qed.

(** A decoded descriptor starts where the cursor stood. *)
Lemma from_file_offset (f f' : File) (d : CPIOInfo) :
  _from_file f = (Ok d, f') -> _offset d = cursor f.
Proof.
  unfold _from_file. intros H.
  apply bind_ok in H. destruct H as (off & f1 & Htell & H).
  unfold tell in Htell. inversion Htell. subst off f1. clear Htell.
  apply bind_ok in H. destruct H as (header & f1 & _ & H).
  destruct (negb (len header =? ENTRY_HEADER_size)); [discriminate|].
  destruct (negb (bytes_eqb (header_magic header) (b_lit "070701")));
    [discriminate|].
  repeat (apply bind_ok in H; destruct H as (? & ? & _ & H)).
  match type of H with
  | (if ?c then _ else _) _ = _ => destruct c; [discriminate|]
  end.
  apply bind_ok in H. destruct H as (nm & f2 & _ & H).
  destruct (negb (len nm =? _)); [discriminate|].
  destruct (negb (bz (last nm x00) =? 0)); [discriminate|].
  destruct (utf8_decode (removelast nm)) as [s|]; [|discriminate].
  unfold lift_res, CPIOInfo_init in H.
  destruct (utf8_encode s); inversion H. reflexivity.
Qed.


Lemma infolist_body_yield (f f' : File) (d : CPIOInfo) (g' : gen_state) :
  infolist_body f = (Yielded d, g', f') ->
  g' = GenSuspended d /\ _offset d = cursor f /\ name d <> Ok TRAILER.
Proof.
  unfold infolist_body.
  destruct (_from_file f) as [[info|e] f1] eqn:E; [|discriminate].
  destruct (name info) as [s|e] eqn:En; [|discriminate].
  destruct (pystr_eqb s TRAILER) eqn:Es; [discriminate|].
  intros H. inversion H. subst. split; [reflexivity|].
  split; [eapply from_file_offset; exact E|].
  rewrite En. intros Hc. inversion Hc. subst s.
  unfold pystr_eqb in Es.
  destruct (list_eq_dec Z.eq_dec TRAILER TRAILER); [discriminate|congruence].
Qed.

Lemma infolist_next_yield (g g' : gen_state) (f f' : File) (d : CPIOInfo) :
  gen_aligned g ->
  infolist_next g f = (Yielded d, g', f') ->
  g' = GenSuspended d /\ _offset d mod 4 = 0 /\ name d <> Ok TRAILER.
Proof.
  intros Hg. destruct g as [|info|]; cbn [infolist_next].
  - unfold seek_set. cbn [Z.ltb Z.compare]. intros H.
    apply infolist_body_yield in H. destruct H as (-> & Ho & Hn).
    cbn [cursor] in Ho. rewrite Ho. repeat split; auto.
  - unfold seek_set. destruct (_offset_after info <? 0); [discriminate|].
    intros H. apply infolist_body_yield in H. destruct H as (-> & Ho & Hn).
    cbn [cursor] in Ho. rewrite Ho. repeat split; auto.
    apply offset_after_aligned. exact Hg.
  - discriminate.
Qed.

Lemma infolist_run_yields (fuel : nat) :
  forall (g : gen_state) (f : File) (d : CPIOInfo),
    gen_aligned g ->
    In d (fst (fst (infolist_run fuel g f))) ->
    _offset d mod 4 = 0 /\ name d <> Ok TRAILER.
Proof.
  induction fuel as [|fuel IH]; intros g f d Hg Hin.
  - destruct Hin.
  - cbn [infolist_run] in Hin.
    destruct (infolist_next g f) as [[[info| |e] g'] f'] eqn:E;
      try (destruct Hin; fail).
    apply infolist_next_yield in E; [|exact Hg].
    destruct E as (-> & Ho & Hn).
    specialize (IH (GenSuspended info) f' d Ho).
    destruct (infolist_run fuel (GenSuspended info) f') as [[l o] f''].
    cbn [fst] in *. destruct Hin as [<-|Hin]; auto.
Qed.

(** C4: every descriptor the scan of a store yields has its data start at
    [align4 (header_offset + 110 + len(name) + 1)] and its end at
    [align4 (data_offset + data_size)], [align4] rounding up to the next
    multiple of 4. *)
Theorem scanned_offsets_are_align4 (fuel : nat) (f : File) (d : CPIOInfo) :
  In d (fst (fst (infolist fuel f))) ->
  _offset_data d = align4 (_offset d + 110 + len (_name d) + 1)
  /\ _offset_after d = align4 (_offset_data d + filesize d).
Proof.
  intros Hin. apply infolist_run_yields in Hin; [|exact I].
  destruct Hin as [Ho _]. split.
  - apply offset_data_aligned. exact Ho.
  - apply offset_after_aligned. exact Ho.
Qed.

Lemma scanned_offsets_are_align4_witness :
  In hello_info (fst (fst (infolist 3 (mkFile hello_store 0))))
  /\ _offset_data hello_info = align4 (0 + 110 + 9 + 1)
  /\ _offset_after hello_info = align4 (120 + 5).
Proof.
  assert (Hin : In hello_info (fst (fst (infolist 3 (mkFile hello_store 0)))))
    by (vm_compute; left; reflexivity).
  split; [exact Hin|].
  exact (scanned_offsets_are_align4 3 (mkFile hello_store 0) hello_info Hin).
Defined.

(** The span of an entry is a multiple of 4, and positive when the data
    size is not negative. *)
Lemma entry_span (d : CPIOInfo) :
  (_offset_after d - _offset d) mod 4 = 0
  /\ (0 <= filesize d -> 112 <= _offset_after d - _offset d).
Proof.
  unfold _offset_after, _offset_data, ENTRY_HEADER_size.
  pose proof (len_nonneg (_name d)) as Hl.
  set (a := (110 + len (_name d) + 1 + 3) / 4).
  set (b := (filesize d + 3) / 4).
  split.
  - replace (_offset d + a * 4 + b * 4 - _offset d) with ((a + b) * 4) by lia.
    apply Z.mod_mul. lia.
  - intros Hf.
    assert (28 <= a) by (apply Z.div_le_lower_bound; lia).
    assert (0 <= b) by (apply Z.div_pos; lia).
    lia.
Qed.

Lemma looping_step (g : gen_state) (c : Z) :
  g = GenStart \/ g = GenSuspended looping_info ->
  infolist_next g (mkFile looping_store c)
  = (Yielded looping_info, GenSuspended looping_info,
     mkFile looping_store 112).
Proof.
  intros [-> | ->]; cbn [infolist_next]; unfold seek_set;
    cbn [content cursor]; vm_compute; reflexivity.
Qed.

Lemma looping_run (n : nat) :
  forall g c,
    g = GenStart \/ g = GenSuspended looping_info ->
    fst (infolist_run n g (mkFile looping_store c))
    = (repeat looping_info n, OutOfFuel).
Proof.
  induction n as [|n IH]; intros g c Hg; [reflexivity|].
  cbn [infolist_run]. rewrite (looping_step g c Hg).
  specialize (IH (GenSuspended looping_info) 112 (or_intror eq_refl)).
  destruct (infolist_run n (GenSuspended looping_info)
              (mkFile looping_store 112)) as [[l o] f'].
  cbn [fst] in *. inversion IH. reflexivity.
Qed.

(** C5, on the store whose one entry carries the signed size [-0000070]:
    [int(b"-0000070", 16)] is [-112], the header is decoded, and the
    descriptor the scan yields ends where it starts, so the difference is 0
    and not positive; the scan then decodes the same entry again and never
    ends. *)
Theorem signed_filesize_entry_span :
  fst (fst (infolist 1 (mkFile looping_store 0))) = [looping_info]
  /\ _offset_after looping_info - _offset looping_info = 0
  /\ forall n, fst (infolist n (mkFile looping_store 0))
               = (repeat looping_info n, OutOfFuel).
Proof.
  split; [vm_compute; reflexivity|]. split; [vm_compute; reflexivity|].
  intros n. apply looping_run. left. reflexivity.
Qed.

Lemma seek_to (g : gen_state) (p : Z) (f : File) :
  points_to g p -> 0 <= p ->
  infolist_next g f = infolist_body (mkFile (content f) p).
Proof.
  intros Hg Hp. destruct g as [|i|]; cbn [points_to] in Hg.
  - subst p. reflexivity.
  - cbn [infolist_next]. unfold seek_set. rewrite Hg.
    destruct (Z.ltb_spec p 0); [lia|]. reflexivity.
  - destruct Hg.
Qed.

(** C6: whatever the store and however long the scan runs, no descriptor it
    yields is named [TRAILER!!!]; and when the scan, about to read at
    position [pos], decodes there an entry named exactly [TRAILER!!!], it
    yields nothing more and ends at that point, whatever fuel is left. *)
Theorem scan_never_yields_trailer (fuel : nat) (f : File) :
  Forall (fun d => name d <> Ok TRAILER) (fst (fst (infolist fuel f)))
  /\ (forall g pos cur info f' n,
        points_to g pos -> 0 <= pos ->
        _from_file (mkFile (content f) pos) = (Ok info, f') ->
        name info = Ok TRAILER ->
        infolist_run (S n) g (mkFile (content f) cur) = ([], Exhausted, f')
        /\ infolist_next GenFinished f' = (StopIteration, GenFinished, f')).
Proof.
  split.
  - apply Forall_forall. intros d Hin.
    apply infolist_run_yields in Hin; [|exact I]. apply Hin.
  - intros g pos cur info f' n Hg Hpos Hd Hn. split; [|reflexivity].
    cbn [infolist_run]. rewrite (seek_to g pos _ Hg Hpos). cbn [content].
    unfold infolist_body. rewrite Hd, Hn. reflexivity.
Qed.

Lemma scan_never_yields_trailer_witness :
  Forall (fun d => name d <> Ok TRAILER)
    (fst (fst (infolist 3 (mkFile hello_store 0))))
  /\ infolist_run 1 (GenSuspended hello_info) (mkFile hello_store 0)
     = ([], Exhausted, mkFile hello_store 249).
Proof.
  destruct (scan_never_yields_trailer 3 (mkFile hello_store 0)) as [Hall Hend].
  split; [exact Hall|].
  refine (proj1 (Hend (GenSuspended hello_info) 128 0
                   (at_offset 128 trailer_info) (mkFile hello_store 249)
                   0%nat _ _ _ _)).
  - reflexivity.
  - lia.
  - vm_compute. reflexivity.
  - reflexivity.
Defined.

(** ** UTF-8: [encode] and [decode] undo each other *)

(** Decide the comparisons in the goal, dropping the impossible branches. *)
Ltac zcases :=
  repeat match goal with
  | |- context [?a =? ?b] => destruct (Z.eqb_spec a b); try lia
  | |- context [?a <? ?b] => destruct (Z.ltb_spec a b); try lia
  | |- context [?a <=? ?b] => destruct (Z.leb_spec a b); try lia
  end; cbn [andb orb negb].

Lemma in_range_spec (lo hi : Z) (b : byte) :
  in_range lo hi b = true <-> lo <= bz b <= hi.
Proof. unfold in_range. lia. Qed.

Lemma encode_cp_1 (x0 : Z) :
  0 <= x0 < 128 -> utf8_encode_cp x0 = Some [zb x0].
Proof. intros H. unfold utf8_encode_cp. zcases; reflexivity. Qed.

Lemma encode_cp_2 (x0 x1 : Z) :
  194 <= x0 < 224 -> 128 <= x1 <= 191 ->
  utf8_encode_cp ((x0 - 192) * 64 + (x1 - 128)) = Some [zb x0; zb x1].
Proof.
  intros H0 H1. unfold utf8_encode_cp.
  set (c := (x0 - 192) * 64 + (x1 - 128)).
  assert (Hq : c / 64 = x0 - 192 /\ c mod 64 = x1 - 128).
  { unfold c. rewrite Z.add_comm, Z.div_add, Z.mod_add by lia.
    rewrite Z.div_small, Z.mod_small by lia. lia. }
  destruct Hq as [-> ->]. assert (128 <= c < 2048) by (unfold c; lia).
  zcases; repeat f_equal; lia.
Qed.

Lemma split_3 (x0 x1 x2 : Z) :
  0 <= x1 < 64 -> 0 <= x2 < 64 ->
  let c := x0 * 4096 + x1 * 64 + x2 in
  c / 4096 = x0 /\ (c / 64) mod 64 = x1 /\ c mod 64 = x2.
Proof.
  intros H1 H2 c. unfold c.
  assert (E : (x0 * 4096 + x1 * 64 + x2) / 64 = x0 * 64 + x1).
  { replace (x0 * 4096 + x1 * 64 + x2) with (x2 + (x0 * 64 + x1) * 64) by lia.
    rewrite Z.div_add, Z.div_small by lia. lia. }
  split; [|split].
  - replace (x0 * 4096 + x1 * 64 + x2) with (x1 * 64 + x2 + x0 * 4096) by lia.
    rewrite Z.div_add, Z.div_small by lia. lia.
  - rewrite E, Z.add_comm, Z.mod_add, Z.mod_small by lia. reflexivity.
  - replace (x0 * 4096 + x1 * 64 + x2) with (x2 + (x0 * 64 + x1) * 64) by lia.
    rewrite Z.mod_add, Z.mod_small by lia. reflexivity.
Qed.

Lemma split_4 (x0 x1 x2 x3 : Z) :
  0 <= x1 < 64 -> 0 <= x2 < 64 -> 0 <= x3 < 64 ->
  let c := x0 * 262144 + x1 * 4096 + x2 * 64 + x3 in
  c / 262144 = x0 /\ (c / 4096) mod 64 = x1 /\ (c / 64) mod 64 = x2
  /\ c mod 64 = x3.
Proof.
  intros H1 H2 H3 c. unfold c.
  destruct (split_3 (x0 * 64 + x1) x2 x3 H2 H3) as (E1 & E2 & E3).
  cbv zeta in E1, E2, E3.
  replace ((x0 * 64 + x1) * 4096 + x2 * 64 + x3)
    with (x0 * 262144 + x1 * 4096 + x2 * 64 + x3) in * by lia.
  split; [|split; [|split]]; auto.
  - replace (x0 * 262144 + x1 * 4096 + x2 * 64 + x3)
      with (x1 * 4096 + x2 * 64 + x3 + x0 * 262144) by lia.
    rewrite Z.div_add, Z.div_small by lia. lia.
  - rewrite E1, Z.add_comm, Z.mod_add, Z.mod_small by lia. reflexivity.
Qed.

Lemma encode_cp_3 (x0 x1 x2 : Z) :
  224 <= x0 < 240 ->
  (if x0 =? 224 then 160 else 128) <= x1
                                   <= (if x0 =? 237 then 159 else 191) ->
  128 <= x2 <= 191 ->
  utf8_encode_cp ((x0 - 224) * 4096 + (x1 - 128) * 64 + (x2 - 128))
  = Some [zb x0; zb x1; zb x2].
Proof.
  intros H0 H1 H2.
  assert (H1' : 128 <= x1 <= 191)
    by (destruct (x0 =? 224), (x0 =? 237); lia).
  destruct (split_3 (x0 - 224) (x1 - 128) (x2 - 128)) as (E1 & E2 & E3);
    try lia.
  cbv zeta in E1, E2, E3. unfold utf8_encode_cp.
  set (c := (x0 - 224) * 4096 + (x1 - 128) * 64 + (x2 - 128)) in *.
  rewrite E1, E2, E3.
  assert (Hlo : 2048 <= c < 65536).
  { unfold c. destruct (Z.eqb_spec x0 224); lia. }
  assert (Hs : c < 55296 \/ 57343 < c).
  { unfold c. destruct (Z.eqb_spec x0 237), (Z.eqb_spec x0 224); lia. }
  zcases; repeat f_equal; lia.
Qed.

Lemma encode_cp_4 (x0 x1 x2 x3 : Z) :
  240 <= x0 < 245 ->
  (if x0 =? 240 then 144 else 128) <= x1
                                   <= (if x0 =? 244 then 143 else 191) ->
  128 <= x2 <= 191 -> 128 <= x3 <= 191 ->
  utf8_encode_cp ((x0 - 240) * 262144 + (x1 - 128) * 4096
                  + (x2 - 128) * 64 + (x3 - 128))
  = Some [zb x0; zb x1; zb x2; zb x3].
Proof.
  intros H0 H1 H2 H3.
  assert (H1' : 128 <= x1 <= 191)
    by (destruct (x0 =? 240), (x0 =? 244); lia).
  destruct (split_4 (x0 - 240) (x1 - 128) (x2 - 128) (x3 - 128))
    as (E1 & E2 & E3 & E4); try lia.
  cbv zeta in E1, E2, E3, E4. unfold utf8_encode_cp.
  set (c := (x0 - 240) * 262144 + (x1 - 128) * 4096 + (x2 - 128) * 64
            + (x3 - 128)) in *.
  rewrite E1, E2, E3, E4.
  assert (Hlo : 65536 <= c < 1114112).
  { unfold c. destruct (Z.eqb_spec x0 240), (Z.eqb_spec x0 244); lia. }
  zcases; repeat f_equal; lia.
Qed.

Lemma option_map_cons_inv {A} (c : A) (o : option (list A)) (s : list A) :
  option_map (cons c) o = Some s -> exists s', o = Some s' /\ s = c :: s'.
Proof.
  destruct o as [s'|]; cbn; intros H; [|discriminate].
  inversion H. exists s'. split; reflexivity.
Qed.

Lemma utf8_encode_cons (c : Z) (r : pystr) (a b : bytes) :
  utf8_encode_cp c = Some a -> utf8_encode r = Some b ->
  utf8_encode (c :: r) = Some (a ++ b).
Proof. intros Ha Hb. cbn [utf8_encode]. rewrite Ha, Hb. reflexivity. Qed.

Lemma utf8_encode_decode_bounded (n : nat) :
  forall (bs : bytes) (s : pystr),
    (List.length bs <= n)%nat ->
    utf8_decode bs = Some s -> utf8_encode s = Some bs.
Proof.
  induction n as [|n IH]; intros bs s Hn H.
  - destruct bs; [|cbn in Hn; lia]. cbn in H. inversion H. reflexivity.
  - destruct bs as [|b0 r0]; [cbn in H; inversion H; reflexivity|].
    cbn [List.length] in Hn. cbn [utf8_decode] in H.
    pose proof (bz_range b0) as R0.
    destruct (Z.ltb_spec (bz b0) 128).
    { apply option_map_cons_inv in H. destruct H as (s' & Hd & ->).
      rewrite (utf8_encode_cons _ _ [zb (bz b0)] r0).
      - rewrite zb_bz. reflexivity.
      - apply encode_cp_1. lia.
      - apply IH; [lia|exact Hd]. }
    destruct (Z.ltb_spec (bz b0) 194); [discriminate|].
    destruct (Z.ltb_spec (bz b0) 224).
    { destruct r0 as [|b1 r1]; [discriminate|].
      destruct (in_range 128 191 b1) eqn:E1; [|discriminate].
      apply in_range_spec in E1.
      apply option_map_cons_inv in H. destruct H as (s' & Hd & ->).
      rewrite (utf8_encode_cons _ _ [zb (bz b0); zb (bz b1)] r1).
      - rewrite !zb_bz. reflexivity.
      - apply encode_cp_2; lia.
      - apply IH; [cbn [List.length] in Hn; lia|exact Hd]. }
    destruct (Z.ltb_spec (bz b0) 240).
    { destruct r0 as [|b1 [|b2 r2]]; try discriminate.
      match type of H with
      | (if ?c1 && ?c2 then _ else _) = _ =>
        destruct c1 eqn:E1; [|discriminate]; destruct c2 eqn:E2;
          [|discriminate]
      end.
      apply in_range_spec in E1, E2. cbn [andb] in H.
      apply option_map_cons_inv in H. destruct H as (s' & Hd & ->).
      rewrite (utf8_encode_cons _ _ [zb (bz b0); zb (bz b1); zb (bz b2)] r2).
      - rewrite !zb_bz. reflexivity.
      - apply encode_cp_3; auto; lia.
      - apply IH; [cbn [List.length] in Hn; lia|exact Hd]. }
    destruct (Z.ltb_spec (bz b0) 245); [|discriminate].
    destruct r0 as [|b1 [|b2 [|b3 r3]]]; try discriminate.
    match type of H with
    | (if ?c1 && ?c2 && ?c3 then _ else _) = _ =>
      destruct c1 eqn:E1; [|discriminate]; destruct c2 eqn:E2;
        [|discriminate]; destruct c3 eqn:E3; [|discriminate]
    end.
    apply in_range_spec in E1, E2, E3. cbn [andb] in H.
    apply option_map_cons_inv in H. destruct H as (s' & Hd & ->).
    rewrite (utf8_encode_cons _ _
               [zb (bz b0); zb (bz b1); zb (bz b2); zb (bz b3)] r3).
    + rewrite !zb_bz. reflexivity.
    + apply encode_cp_4; auto; lia.
    + apply IH; [cbn [List.length] in Hn; lia|exact Hd].
Qed.

(** What [decode] accepts, [encode] gives back byte for byte. *)
Lemma utf8_encode_decode (bs : bytes) (s : pystr) :
  utf8_decode bs = Some s -> utf8_encode s = Some bs.
Proof. apply (utf8_encode_decode_bounded (List.length bs)). lia. Qed.

Lemma some_inj {A} (a b : A) : Some a = Some b -> a = b.
Proof. congruence. Qed.

Lemma decode_cp (c : Z) (a rest : bytes) :
  utf8_encode_cp c = Some a ->
  utf8_decode (a ++ rest) = option_map (cons c) (utf8_decode rest).
Proof.
  unfold utf8_encode_cp.
  destruct (Z.ltb_spec c 0); [discriminate|].
  destruct (Z.ltb_spec c 128).
  { intros <-%some_inj. cbn [app utf8_decode].
    rewrite bz_zb by lia. zcases; reflexivity. }
  destruct (Z.ltb_spec c 2048).
  { intros <-%some_inj. cbn [app utf8_decode]. unfold in_range.
    pose proof (Z.mod_pos_bound c 64 ltac:(lia)).
    assert (2 <= c / 64 < 32)
      by (split; [apply Z.div_le_lower_bound|apply Z.div_lt_upper_bound];
          lia).
    pose proof (Z.div_mod c 64 ltac:(lia)).
    rewrite !bz_zb by lia. zcases; f_equal; f_equal; lia. }
  destruct (Z.ltb_spec c 65536).
  { destruct (Z.leb_spec 55296 c), (Z.leb_spec c 57343); cbn [andb];
      try discriminate; intros <-%some_inj; cbn [app utf8_decode];
      unfold in_range;
      pose proof (Z.mod_pos_bound c 64 ltac:(lia));
      pose proof (Z.mod_pos_bound (c / 64) 64 ltac:(lia));
      pose proof (Z.div_mod c 64 ltac:(lia));
      pose proof (Z.div_mod (c / 64) 64 ltac:(lia));
      assert (E : c / 4096 = c / 64 / 64)
        by (rewrite Z.div_div by lia; reflexivity);
      assert (0 <= c / 4096 < 16)
        by (split; [apply Z.div_pos|apply Z.div_lt_upper_bound]; lia);
      rewrite !bz_zb by lia; zcases; f_equal; f_equal; lia. }
  destruct (Z.ltb_spec c 1114112); [|discriminate].
  intros <-%some_inj. cbn [app utf8_decode]. unfold in_range.
  pose proof (Z.mod_pos_bound c 64 ltac:(lia)).
  pose proof (Z.mod_pos_bound (c / 64) 64 ltac:(lia)).
  pose proof (Z.mod_pos_bound (c / 4096) 64 ltac:(lia)).
  pose proof (Z.div_mod c 64 ltac:(lia)).
  pose proof (Z.div_mod (c / 64) 64 ltac:(lia)).
  pose proof (Z.div_mod (c / 4096) 64 ltac:(lia)).
  assert (E1 : c / 4096 = c / 64 / 64)
    by (rewrite Z.div_div by lia; reflexivity).
  assert (E2 : c / 262144 = c / 4096 / 64)
    by (rewrite Z.div_div by lia; reflexivity).
  assert (0 <= c / 262144 < 5)
    by (split; [apply Z.div_pos|apply Z.div_lt_upper_bound]; lia).
  rewrite !bz_zb by lia. zcases; f_equal; f_equal; lia.
Qed.

(** What [encode] produces, [decode] reads back. *)
Lemma utf8_decode_encode (s : pystr) :
  forall bs, utf8_encode s = Some bs -> utf8_decode bs = Some s.
Proof.
  induction s as [|c r IH]; intros bs H.
  - cbn in H. inversion H. reflexivity.
  - cbn [utf8_encode] in H.
    destruct (utf8_encode_cp c) as [a|] eqn:Ea; [|discriminate].
    destruct (utf8_encode r) as [b|] eqn:Eb; [|discriminate].
    inversion H. rewrite (decode_cp c a b Ea), (IH b eq_refl). reflexivity.
Qed.

(** ** The integer-literal parser *)

Lemma lit_space (b : byte) : is_space b = true -> lit b.
Proof.
  unfold lit, literal_char. intros ->. rewrite orb_true_r. reflexivity.
Qed.

Lemma lit_digit (b : byte) : is_hex_digit b = true -> lit b.
Proof. unfold lit, literal_char. intros ->. reflexivity. Qed.

Lemma lit_eqb (b c : byte) : Byte.eqb b c = true -> lit c -> lit b.
Proof. intros H%Byte.byte_dec_bl. subst. auto. Qed.

Lemma skip_spaces_lit (s : bytes) : Forall lit (skip_spaces s) -> Forall lit s.
Proof.
  induction s as [|c r IH]; cbn [skip_spaces]; intros H; [constructor|].
  destruct (is_space c) eqn:E; [|exact H].
  constructor; [apply lit_space; exact E|apply IH; exact H].
Qed.

Lemma skip_spaces_nil_lit (s : bytes) : skip_spaces s = [] -> Forall lit s.
Proof.
  induction s as [|c r IH]; cbn [skip_spaces]; intros H; [constructor|].
  destruct (is_space c) eqn:E; [|discriminate].
  constructor; [apply lit_space; exact E|apply IH; exact H].
Qed.

Lemma strip_sign_lit (s : bytes) :
  Forall lit (snd (strip_sign s)) -> Forall lit s.
Proof.
  destruct s as [|c r]; cbn [strip_sign]; [auto|].
  destruct (Byte.eqb c ch_plus) eqn:E1;
    [intros H; constructor; [|exact H];
     apply (lit_eqb _ _ E1); reflexivity|].
  destruct (Byte.eqb c ch_minus) eqn:E2;
    [intros H; constructor; [|exact H];
     apply (lit_eqb _ _ E2); reflexivity|].
  auto.
Qed.

Lemma strip_prefix_lit (s : bytes) :
  Forall lit (strip_prefix s) -> Forall lit s.
Proof.
  destruct s as [|c0 [|c1 r]]; cbn [strip_prefix]; auto.
  destruct (Byte.eqb c0 ch_zero) eqn:E0; cbn [andb]; auto.
  destruct (Byte.eqb c1 ch_x || Byte.eqb c1 ch_X) eqn:E1; auto.
  assert (H0 : lit c0) by (apply (lit_eqb _ _ E0); reflexivity).
  assert (H1 : lit c1).
  { apply orb_true_iff in E1. destruct E1 as [E|E];
      apply (lit_eqb _ _ E); reflexivity. }
  destruct r as [|u r']; intros H.
  - constructor; [exact H0|]. constructor; [exact H1|exact H].
  - constructor; [exact H0|]. constructor; [exact H1|].
    destruct (Byte.eqb u ch_underscore) eqn:Eu; [|exact H].
    constructor; [|exact H]. apply (lit_eqb _ _ Eu). reflexivity.
Qed.

Lemma scan_digits_lit (s : bytes) :
  forall prev acc n v m rest,
    scan_digits prev acc n s = Some (v, m, rest) ->
    Forall lit rest -> Forall lit s.
Proof.
  induction s as [|c r IH]; intros prev acc n v m rest H Hr; [constructor|].
  cbn [scan_digits] in H.
  destruct (Byte.eqb c ch_underscore) eqn:Eu.
  - destruct prev; [discriminate|].
    constructor; [apply (lit_eqb _ _ Eu); reflexivity|].
    eapply IH; eassumption.
  - destruct (is_hex_digit c) eqn:Ed.
    + constructor; [apply lit_digit; exact Ed|]. eapply IH; eassumption.
    + destruct prev; [discriminate|]. injection H as _ _ <-. exact Hr.
Qed.

(** A field [int(field, 16)] accepts holds only bytes of the literal
    grammar. *)
Lemma int16_literal_chars (s : bytes) (v : Z) :
  int16 s = Some v -> Forall lit s.
Proof.
  unfold int16. intros H. apply skip_spaces_lit.
  destruct (strip_sign (skip_spaces s)) as [sign s2] eqn:Es.
  apply strip_sign_lit. rewrite Es. cbn [snd].
  apply strip_prefix_lit.
  destruct (starts_with_underscore (strip_prefix s2)); [discriminate|].
  destruct (scan_digits false 0 0 (strip_prefix s2))
    as [[[x m] rest]|] eqn:Ed; [|discriminate].
  destruct m; [discriminate|].
  destruct (skip_spaces rest) eqn:Er; [|discriminate].
  eapply scan_digits_lit; [exact Ed|].
  apply skip_spaces_nil_lit. exact Er.
Qed.

(** ** What [_from_file] accepts *)

Lemma bind_step {S A B} (m : M S A) (k : A -> M S B) (s s1 : S) (a : A) :
  m s = (Ok a, s1) -> bind m k s = k a s1.
Proof. intros H. unfold bind. rewrite H. reflexivity. Qed.

Lemma bind_parse {B} (field : bytes) (k : Z -> M File B) (f : File) :
  bind (parse_field field) k f
  = match int16 field with
    | Some v => k v f
    | None => (Raise (BadCPIOFile NonHexField), f)
    end.
Proof.
  unfold bind, parse_field. destruct (int16 field); reflexivity.
Qed.

Lemma read_header (f : File) :
  read ENTRY_HEADER_size f = (Ok (header_at f), after_header f).
Proof. reflexivity. Qed.

Lemma read_name (f : File) (namesize : Z) :
  0 <= namesize ->
  read namesize (after_header f)
  = (Ok (name_at f namesize),
     mkFile (content f)
       (cursor (after_header f) + len (name_at f namesize))).
Proof.
  intros H. unfold read, name_at.
  destruct (Z.ltb_spec namesize 0); [lia|]. reflexivity.
Qed.

Ltac step_field H v Hv :=
  rewrite bind_parse in H;
  match type of H with
  | match int16 ?fld with _ => _ end = _ =>
    destruct (int16 fld) as [v|] eqn:Hv; [|discriminate H]
  end.

(** Everything a successful decode tells about the bytes at the cursor. *)
Lemma from_file_ok_inv (f f' : File) (d : CPIOInfo) :
  _from_file f = (Ok d, f') ->
  exists namesize s,
    len (header_at f) = 110
    /\ header_magic (header_at f) = b_lit "070701"
    /\ fields_of (header_at f) d
    /\ int16 (header_field 11 (header_at f)) = Some namesize
    /\ 0 < namesize
    /\ name_at f namesize = _name d ++ [x00]
    /\ len (_name d) + 1 = namesize
    /\ utf8_decode (_name d) = Some s
    /\ _offset d = cursor f
    /\ f' = mkFile (content f) (cursor f + 110 + namesize).
Proof.
  unfold _from_file. intros H.
  rewrite (bind_step tell _ f f (cursor f) eq_refl) in H.
  rewrite (bind_step (read ENTRY_HEADER_size) _ _ _ _ (read_header f)) in H.
  set (header := header_at f) in *.
  destruct (Z.eqb_spec (len header) ENTRY_HEADER_size) as [Hlen|];
    cbn [negb] in H; [|discriminate].
  destruct (bytes_eqb (header_magic header) (b_lit "070701")) eqn:Hmagic;
    cbn [negb] in H; [|discriminate].
  step_field H v0 H0. step_field H v1 H1. step_field H v2 H2.
  step_field H v3 H3. step_field H v4 H4. step_field H v5 H5.
  step_field H v6 H6. step_field H v7 H7. step_field H v8 H8.
  step_field H v9 H9. step_field H v10 H10. step_field H namesize H11.
  destruct (Z.eqb_spec namesize 0) as [|Hnz]; [discriminate|].
  unfold bind in H.
  destruct (read namesize (after_header f)) as [[nm|e] f2] eqn:Hread;
    [|discriminate].
  destruct (Z.eqb_spec (len nm) namesize) as [Hnl|]; cbn [negb] in H;
    [|discriminate].
  destruct (Z.eqb_spec (bz (last nm x00)) 0) as [Hnul|]; cbn [negb] in H;
    [|discriminate].
  destruct (utf8_decode (removelast nm)) as [s|] eqn:Hdec; [|discriminate].
  unfold lift_res, CPIOInfo_init in H.
  rewrite (utf8_encode_decode _ _ Hdec) in H.
  injection H as <- <-.
  pose proof (len_nonneg nm) as Hnn.
  assert (Hpos : 0 < namesize) by lia.
  rewrite read_name in Hread by lia.
  injection Hread as Hnm Hf2.
  assert (Hsplit : nm = removelast nm ++ [x00]).
  { destruct nm as [|b nm'] using rev_ind; [unfold len in Hnl; cbn in Hnl; lia|].
    rewrite last_last in Hnul. rewrite removelast_last.
    f_equal. f_equal. apply bz_inj. exact Hnul. }
  exists namesize, s. cbn [_name _offset].
  unfold fields_of. cbn [ino mode uid gid nlink mtime filesize devmajor
                         devminor rdevmajor rdevminor].
  repeat split; auto.
  - unfold bytes_eqb in Hmagic.
    destruct (list_eq_dec _ _ _); [assumption|discriminate].
  - rewrite Hnm. exact Hsplit.
  - rewrite Hsplit, len_app in Hnl. unfold len at 2 in Hnl. cbn in Hnl. lia.
  - rewrite <- Hf2. f_equal. unfold after_header. cbn [cursor].
    fold header. rewrite Hnm. unfold ENTRY_HEADER_size in Hlen. lia.
Qed.

(** The converse of [from_file_ok_inv]. *)
Lemma from_file_ok_intro (f : File) (d : CPIOInfo) (namesize : Z)
  (s : pystr) :
  len (header_at f) = 110 ->
  header_magic (header_at f) = b_lit "070701" ->
  fields_of (header_at f) d ->
  int16 (header_field 11 (header_at f)) = Some namesize ->
  name_at f namesize = _name d ++ [x00] ->
  len (_name d) + 1 = namesize ->
  utf8_decode (_name d) = Some s ->
  _offset d = cursor f ->
  _from_file f = (Ok d, mkFile (content f) (cursor f + 110 + namesize)).
Proof.
  intros Hlen Hmagic Hf Hns Hnm Hl Hs Ho.
  destruct Hf as (H0 & H1 & H2 & H3 & H4 & H5 & H6 & H7 & H8 & H9 & H10).
  pose proof (len_nonneg (_name d)) as Hnn.
  unfold _from_file.
  rewrite (bind_step tell _ f f (cursor f) eq_refl).
  rewrite (bind_step (read ENTRY_HEADER_size) _ _ _ _ (read_header f)).
  rewrite Hlen, Hmagic. cbn [Z.eqb Pos.eqb negb ENTRY_HEADER_size].
  replace (bytes_eqb (b_lit "070701") (b_lit "070701")) with true
    by reflexivity.
  cbn [negb].
  rewrite bind_parse, H0, bind_parse, H1, bind_parse, H2, bind_parse, H3,
    bind_parse, H4, bind_parse, H5, bind_parse, H6, bind_parse, H7,
    bind_parse, H8, bind_parse, H9, bind_parse, H10, bind_parse, Hns.
  destruct (Z.eqb_spec namesize 0); [lia|].
  rewrite (bind_step (read namesize) _ _ _ _
             (read_name f namesize ltac:(lia))).
  rewrite Hnm.
  assert (Hlen' : len (_name d ++ [x00]) = namesize)
    by (rewrite len_app; unfold len at 2; cbn [List.length]; lia).
  rewrite Hlen', Z.eqb_refl. cbn [negb].
  rewrite last_last. change (bz x00 =? 0) with true. cbn [negb].
  rewrite removelast_last, Hs.
  unfold lift_res, CPIOInfo_init. rewrite (utf8_encode_decode _ _ Hs).
  rewrite <- Ho. destruct d. cbn [_offset ino mode uid gid nlink mtime
    filesize devmajor devminor rdevmajor rdevminor _name].
  f_equal. f_equal. unfold after_header. cbn [cursor content].
  cbn [_offset] in Ho. rewrite Hlen. lia.
Qed.

Lemma from_file_non_hex (f : File) (i : Z) :
  len (header_at f) = 110 ->
  header_magic (header_at f) = b_lit "070701" ->
  0 <= i < 12 ->
  int16 (header_field i (header_at f)) = None ->
  _from_file f = (Raise (BadCPIOFile NonHexField), after_header f).
Proof.
  intros Hlen Hmagic Hi Hnone. unfold _from_file.
  rewrite (bind_step tell _ f f (cursor f) eq_refl).
  rewrite (bind_step (read ENTRY_HEADER_size) _ _ _ _ (read_header f)).
  rewrite Hlen, Hmagic. cbn [Z.eqb Pos.eqb negb ENTRY_HEADER_size].
  replace (bytes_eqb (b_lit "070701") (b_lit "070701")) with true
    by reflexivity.
  cbn [negb].
  assert (Hcases : i = 0 \/ i = 1 \/ i = 2 \/ i = 3 \/ i = 4 \/ i = 5
                   \/ i = 6 \/ i = 7 \/ i = 8 \/ i = 9 \/ i = 10 \/ i = 11)
    by lia.
  repeat (rewrite bind_parse;
          match goal with
          | |- match int16 ?fld with _ => _ end = _ =>
            destruct (int16 fld) eqn:?; [|reflexivity]
          end).
  exfalso.
  repeat (destruct Hcases as [->|Hcases]; [congruence|]).
  subst i. congruence.
Qed.

Lemma from_file_zero_namesize (f : File) :
  len (header_at f) = 110 ->
  header_magic (header_at f) = b_lit "070701" ->
  (forall i, 0 <= i < 11 -> int16 (header_field i (header_at f)) <> None) ->
  int16 (header_field 11 (header_at f)) = Some 0 ->
  _from_file f = (Raise (BadCPIOFile ZeroLengthName), after_header f).
Proof.
  intros Hlen Hmagic Hall Hns. unfold _from_file.
  rewrite (bind_step tell _ f f (cursor f) eq_refl).
  rewrite (bind_step (read ENTRY_HEADER_size) _ _ _ _ (read_header f)).
  rewrite Hlen, Hmagic. cbn [Z.eqb Pos.eqb negb ENTRY_HEADER_size].
  replace (bytes_eqb (b_lit "070701") (b_lit "070701")) with true
    by reflexivity.
  cbn [negb].
  do 11 (rewrite bind_parse;
         match goal with
         | |- match int16 (header_field ?k ?h) with _ => _ end = _ =>
           destruct (int16 (header_field k h)) eqn:?;
             [|exfalso; apply (Hall k); [lia|assumption]]
         end).
  rewrite bind_parse, Hns. reflexivity.
Qed.

(** C2, as the code has it: on a 110-byte header with the magic, a field
    among the twelve from [ino] to [namesize] that [int(field, 16)] does not
    accept, so in particular one holding a byte outside the literal grammar
    (hex digits, ASCII white space, signs, underscore, [x]), makes the
    decode raise [BadCPIOFile] for a non-hex field once the header is read;
    a decode that succeeds had all twelve accepted and made of such bytes
    only.  The thirteenth field, [check], is not among them. *)
Theorem non_literal_field_is_malformed (f : File) :
  len (header_at f) = 110 ->
  header_magic (header_at f) = b_lit "070701" ->
  (forall i, 0 <= i < 12 ->
     int16 (header_field i (header_at f)) = None ->
     _from_file f = (Raise (BadCPIOFile NonHexField), after_header f))
  /\ (forall i b, 0 <= i < 12 ->
        In b (header_field i (header_at f)) -> literal_char b = false ->
        _from_file f = (Raise (BadCPIOFile NonHexField), after_header f))
  /\ (forall d f', _from_file f = (Ok d, f') ->
        forall i, 0 <= i < 12 ->
          (exists v, int16 (header_field i (header_at f)) = Some v)
          /\ Forall lit (header_field i (header_at f))).
Proof.
  intros Hlen Hmagic.
  assert (Hnone : forall i, 0 <= i < 12 ->
            int16 (header_field i (header_at f)) = None ->
            _from_file f = (Raise (BadCPIOFile NonHexField), after_header f))
    by (intros i Hi Hn; apply (from_file_non_hex f i); assumption).
  split; [exact Hnone|]. split.
  - intros i b Hi Hin Hb. apply (Hnone i Hi).
    destruct (int16 (header_field i (header_at f))) as [v|] eqn:E;
      [|reflexivity].
    apply int16_literal_chars in E. rewrite Forall_forall in E.
    specialize (E b Hin). unfold lit in E. congruence.
  - intros d f' Hok i Hi.
    destruct (int16 (header_field i (header_at f))) as [v|] eqn:E.
    + split; [exists v; reflexivity|].
      eapply int16_literal_chars. exact E.
    + rewrite (Hnone i Hi E) in Hok. discriminate.
Qed.

Lemma non_literal_field_is_malformed_witness :
  _from_file (mkFile non_hex_store 0)
  = (Raise (BadCPIOFile NonHexField), mkFile non_hex_store 110).
Proof.
  refine (proj1 (proj2 (non_literal_field_is_malformed
                          (mkFile non_hex_store 0) eq_refl eq_refl))
            3 (zb 103) _ _ eq_refl).
  - lia.
  - vm_compute. tauto.
Defined.

(** C2 as stated fails: the entry whose [check] field is [zzzzzzzz] is
    decoded, and so is the one whose [ino] field is [ -0x1_f ], which
    [int(field, 16)] reads as -31. *)
Lemma check_field_not_validated :
  (header_magic (header_at (mkFile unchecked_store 0)) = b_lit "070701"
   /\ header_field 12 (header_at (mkFile unchecked_store 0))
      = b_lit "zzzzzzzz"
   /\ forallb is_hex_digit (b_lit "zzzzzzzz") = false
   /\ _from_file (mkFile unchecked_store 0)
      = (Ok (plain_info 0 0 (b_lit "a")), mkFile unchecked_store 112))
  /\ (header_magic (header_at (mkFile lenient_store 0)) = b_lit "070701"
      /\ header_field 0 (header_at (mkFile lenient_store 0))
         = b_lit " -0x1_f "
      /\ forallb is_hex_digit (b_lit " -0x1_f ") = false
      /\ _from_file (mkFile lenient_store 0)
         = (Ok (plain_info 0 (-31) (b_lit "a")), mkFile lenient_store 112)).
Proof. vm_compute. repeat split. Qed.

(** C3, as the code has it: a header whose [namesize] field reads as 0 is
    refused with [BadCPIOFile] for a zero-length filename.  A descriptor
    that is decoded has a [namesize] of at least 1 and, as its name, the
    [namesize] bytes after the header without the last of them, which is a
    NUL; and that name is valid UTF-8, the string its [name] property
    returns.  Nothing else is asked of the name: after a sound header,
    bytes that are valid UTF-8 and are followed by a NUL are decoded as the
    name, NUL bytes among them or not. *)
Theorem decoded_name_is_wire_name (f : File) :
  (len (header_at f) = 110 ->
   header_magic (header_at f) = b_lit "070701" ->
   (forall i, 0 <= i < 11 -> int16 (header_field i (header_at f)) <> None) ->
   int16 (header_field 11 (header_at f)) = Some 0 ->
   _from_file f = (Raise (BadCPIOFile ZeroLengthName), after_header f))
  /\ (forall d f',
        _from_file f = (Ok d, f') ->
        exists namesize s,
          int16 (header_field 11 (header_at f)) = Some namesize
          /\ 1 <= namesize
          /\ name_at f namesize = _name d ++ [x00]
          /\ len (_name d) = namesize - 1
          /\ utf8_decode (_name d) = Some s
          /\ name d = Ok s)
  /\ (forall d namesize s,
        len (header_at f) = 110 ->
        header_magic (header_at f) = b_lit "070701" ->
        fields_of (header_at f) d ->
        int16 (header_field 11 (header_at f)) = Some namesize ->
        name_at f namesize = _name d ++ [x00] ->
        len (_name d) + 1 = namesize ->
        utf8_decode (_name d) = Some s ->
        _offset d = cursor f ->
        _from_file f
        = (Ok d, mkFile (content f) (cursor f + 110 + namesize))).
Proof.
  split; [|split].
  - apply from_file_zero_namesize.
  - intros d f' H. apply from_file_ok_inv in H.
    destruct H as (namesize & s & _ & _ & _ & Hns & Hpos & Hnm & Hl & Hs & _).
    exists namesize, s. unfold name. rewrite Hs.
    repeat split; auto; lia.
  - intros d namesize s. apply from_file_ok_intro.
Qed.

Lemma decoded_name_is_wire_name_witness :
  _from_file (mkFile zero_namesize_store 0)
  = (Raise (BadCPIOFile ZeroLengthName), mkFile zero_namesize_store 110)
  /\ (exists namesize s,
        int16 (header_field 11 (header_at (mkFile hello_store 0)))
        = Some namesize
        /\ 1 <= namesize
        /\ name_at (mkFile hello_store 0) namesize
           = b_lit "hello.txt" ++ [x00]
        /\ len (b_lit "hello.txt") = namesize - 1
        /\ utf8_decode (b_lit "hello.txt") = Some s
        /\ name hello_info = Ok s)
  /\ _from_file (mkFile nul_name_store 0)
     = (Ok (plain_info 0 0 [zb 97; x00; zb 98]), mkFile nul_name_store 114).
Proof.
  split; [|split].
  - refine (proj1 (decoded_name_is_wire_name (mkFile zero_namesize_store 0))
              eq_refl eq_refl _ eq_refl).
    intros i Hi.
    assert (Hc : i = 0 \/ i = 1 \/ i = 2 \/ i = 3 \/ i = 4 \/ i = 5
                 \/ i = 6 \/ i = 7 \/ i = 8 \/ i = 9 \/ i = 10) by lia.
    repeat (destruct Hc as [->|Hc]; [vm_compute; discriminate|]).
    subst i. vm_compute. discriminate.
  - refine (proj1 (proj2 (decoded_name_is_wire_name (mkFile hello_store 0)))
              hello_info (mkFile hello_store 120) _).
    vm_compute. reflexivity.
  - refine (proj2 (proj2 (decoded_name_is_wire_name (mkFile nul_name_store 0)))
              (plain_info 0 0 [zb 97; x00; zb 98]) 4 [97; 0; 98]
              eq_refl eq_refl _ eq_refl eq_refl eq_refl eq_refl eq_refl).
    vm_compute. repeat split.
Defined.

(** C3 as stated fails: the entry with name bytes [a], NUL, [b], NUL is
    decoded into a descriptor whose name holds a NUL, and the entry whose
    [namesize] is 1 into a descriptor whose name is empty. *)
Lemma decoded_name_may_hold_nul :
  (_from_file (mkFile nul_name_store 0)
   = (Ok (plain_info 0 0 [zb 97; x00; zb 98]), mkFile nul_name_store 114)
   /\ In x00 (_name (plain_info 0 0 [zb 97; x00; zb 98]))
   /\ name (plain_info 0 0 [zb 97; x00; zb 98]) = Ok [97; 0; 98])
  /\ (_from_file (mkFile empty_name_store 0)
      = (Ok (plain_info 0 0 []), mkFile empty_name_store 111)
      /\ name (plain_info 0 0 []) = Ok []).
Proof.
  vm_compute. repeat split. right. left. reflexivity.
Qed.

(** ** Eight hex digits and back *)

Lemma hex_char_plain (d : Z) : 0 <= d < 16 -> plain_digit (hex_char d) d.
Proof.
  intros H.
  assert (Hc : d = 0 \/ d = 1 \/ d = 2 \/ d = 3 \/ d = 4 \/ d = 5 \/ d = 6
               \/ d = 7 \/ d = 8 \/ d = 9 \/ d = 10 \/ d = 11 \/ d = 12
               \/ d = 13 \/ d = 14 \/ d = 15) by lia.
  unfold plain_digit.
  repeat (destruct Hc as [->|Hc];
          [split; [lia|vm_compute; repeat split]|]).
  subst d. split; [lia|vm_compute; repeat split].
Qed.

Lemma hex_fixed_digits (n : nat) :
  forall x, hex_fixed n x = map hex_char (hex_digits n x).
Proof.
  induction n as [|n IH]; intros x; [reflexivity|].
  cbn [hex_fixed hex_digits]. rewrite map_app, IH. reflexivity.
Qed.

Lemma hex_digits_range (n : nat) :
  forall x, Forall (fun d => 0 <= d < 16) (hex_digits n x).
Proof.
  induction n as [|n IH]; intros x; cbn [hex_digits]; [constructor|].
  apply Forall_app. split; [apply IH|].
  constructor; [apply Z.mod_pos_bound; lia|constructor].
Qed.

Lemma hex_digits_length (n : nat) :
  forall x, List.length (hex_digits n x) = n.
Proof.
  induction n as [|n IH]; intros x; cbn [hex_digits]; [reflexivity|].
  rewrite length_app, IH. cbn. lia.
Qed.

Lemma horner_hex_digits (n : nat) :
  forall x, horner 0 (hex_digits n x) = x mod 16 ^ Z.of_nat n.
Proof.
  unfold horner.
  induction n as [|n IH]; intros x.
  - cbn. rewrite Z.mod_1_r. reflexivity.
  - cbn [hex_digits]. rewrite fold_left_app. cbn [fold_left]. rewrite IH.
    rewrite Nat2Z.inj_succ, Z.pow_succ_r by lia.
    rewrite Z.rem_mul_r by lia. lia.
Qed.

Lemma scan_digits_plain (cs : bytes) (ds : list Z) :
  Forall2 plain_digit cs ds ->
  forall acc n,
    scan_digits false acc n cs
    = Some (horner acc ds, (n + List.length cs)%nat, []).
Proof.
  induction 1 as [|c d cs ds Hc _ IH]; intros acc n.
  - cbn. rewrite Nat.add_0_r. reflexivity.
  - destruct Hc as (_ & Hv & Hd & _ & _ & _ & Hu & _).
    cbn [scan_digits]. rewrite Hu, Hd, Hv, IH.
    cbn [List.length]. unfold horner. cbn [fold_left].
    replace (S n + List.length cs)%nat with (n + S (List.length cs))%nat
      by lia.
    reflexivity.
Qed.

Lemma int16_plain (cs : bytes) (ds : list Z) :
  Forall2 plain_digit cs ds -> cs <> [] ->
  0 <= horner 0 ds -> int16 cs = Some (horner 0 ds).
Proof.
  intros Hall Hne Hpos.
  pose proof (scan_digits_plain cs ds Hall 0 0%nat) as Hscan.
  destruct Hall as [|c d cs ds Hc Hrest]; [congruence|].
  destruct Hc as (_ & _ & _ & Hsp & Hp & Hm & Hu & _).
  unfold int16. cbn [skip_spaces]. rewrite Hsp.
  cbn [strip_sign]. rewrite Hp, Hm.
  assert (Hpre : strip_prefix (c :: cs) = c :: cs).
  { destruct Hrest as [|c1 d1 cs1 ds1 Hc1 _]; [reflexivity|].
    destruct Hc1 as (_ & _ & _ & _ & _ & _ & _ & Hx & HX).
    cbn [strip_prefix]. rewrite Hx, HX. cbn [orb].
    rewrite andb_false_r. reflexivity. }
  rewrite Hpre. cbn [starts_with_underscore]. rewrite Hu, Hscan.
  cbn [Nat.add List.length skip_spaces]. f_equal. lia.
Qed.

Lemma hex_chars_plain (ds : list Z) :
  Forall (fun d => 0 <= d < 16) ds -> Forall2 plain_digit (map hex_char ds) ds.
Proof.
  induction 1 as [|d ds Hd _ IH]; cbn [map]; constructor.
  - apply hex_char_plain. exact Hd.
  - exact IH.
Qed.

(** [int(f"{x:08x}", 16) == x] for a 32-bit [x]. *)
Lemma int16_hex_fixed (x : Z) : u32 x -> int16 (hex_fixed 8 x) = Some x.
Proof.
  intros Hx. unfold u32 in Hx.
  assert (Hh : horner 0 (hex_digits 8 x) = x).
  { rewrite horner_hex_digits. apply Z.mod_small.
    change (16 ^ Z.of_nat 8) with 4294967296. lia. }
  rewrite hex_fixed_digits.
  rewrite (int16_plain _ (hex_digits 8 x)).
  - rewrite Hh. reflexivity.
  - apply hex_chars_plain, hex_digits_range.
  - pose proof (hex_digits_length 8 x) as Hl.
    destruct (hex_digits 8 x); [discriminate|]. cbn [map]. discriminate.
  - rewrite Hh. lia.
Qed.

Lemma hex_fixed_length (n : nat) (x : Z) : List.length (hex_fixed n x) = n.
Proof. rewrite hex_fixed_digits, length_map. apply hex_digits_length. Qed.

(** A 32-bit value is formatted as exactly its eight digits, which the
    [8s] field holds unchanged. *)
Lemma pack_format_u32 (x : Z) :
  u32 x -> pack_s 8 (format_08x x) = hex_fixed 8 x.
Proof.
  intros Hx. unfold u32 in Hx. unfold format_08x.
  destruct (Z.leb_spec 0 x); [|lia].
  assert (Hw : Nat.max 8 (hex_width x) = 8%nat).
  { apply Nat.max_l. unfold hex_width.
    destruct (Z.leb_spec x 0); [lia|].
    assert (Z.log2 x < 32) by (apply Z.log2_lt_pow2; lia).
    assert (Z.log2 x / 4 < 8) by (apply Z.div_lt_upper_bound; lia).
    pose proof (Z.log2_nonneg x).
    assert (0 <= Z.log2 x / 4) by (apply Z.div_pos; lia). lia. }
  rewrite Hw. unfold pack_s. rewrite hex_fixed_length.
  rewrite <- (hex_fixed_length 8 x) at 1. rewrite firstn_all.
  cbn [Nat.sub repeat]. apply app_nil_r.
Qed.

(** ** The bytes of an encoded entry *)

Lemma skipn_length_app {A} (a b : list A) : skipn (List.length a) (a ++ b) = b.
Proof. induction a as [|x a IH]; [reflexivity|exact IH]. Qed.

Lemma firstn_length_app {A} (a b : list A) :
  firstn (List.length a) (a ++ b) = a.
Proof.
  induction a as [|x a IH]; [reflexivity|].
  cbn [List.length app firstn]. f_equal. exact IH.
Qed.

Lemma pad_round (n : Z) : n + (4 - n mod 4) mod 4 = (n + 3) / 4 * 4.
Proof.
  rewrite round_up_is_align4.
  destruct (align4_spec n) as [Ha Hb].
  destruct (padding_bounds n) as [Hp Hm].
  apply Z.mod_divide in Ha, Hm; try lia.
  destruct Ha as [k Hk]. destruct Hm as [j Hj]. lia.
Qed.

Lemma header_of_length (d : CPIOInfo) : List.length (header_of d) = 110%nat.
Proof.
  unfold header_of. cbn [map List.concat].
  repeat (rewrite length_app, ?hex_fixed_length). reflexivity.
Qed.

Lemma encode_layout (d : CPIOInfo) :
  fits_header d ->
  encode d
  = header_of d ++ (_name d ++ [x00])
    ++ zeros ((4 - (110 + len (_name d) + 1) mod 4) mod 4).
Proof.
  intros (H0 & H1 & H2 & H3 & H4 & H5 & H6 & H7 & H8 & H9 & H10 & H11).
  assert (Hz : u32 0) by (unfold u32; lia).
  unfold encode, ENTRY_HEADER_pack. cbn [map List.concat].
  rewrite !pack_format_u32 by assumption.
  change (pack_s 6 (b_lit "070701")) with (b_lit "070701").
  fold (header_of d) in *.
  assert (Hh : b_lit "070701"
               ++ hex_fixed 8 (ino d) ++ hex_fixed 8 (mode d)
               ++ hex_fixed 8 (uid d) ++ hex_fixed 8 (gid d)
               ++ hex_fixed 8 (nlink d) ++ hex_fixed 8 (mtime d)
               ++ hex_fixed 8 (filesize d) ++ hex_fixed 8 (devmajor d)
               ++ hex_fixed 8 (devminor d) ++ hex_fixed 8 (rdevmajor d)
               ++ hex_fixed 8 (rdevminor d)
               ++ hex_fixed 8 (len (_name d) + 1) ++ hex_fixed 8 0 ++ []
               = header_of d) by reflexivity.
  rewrite Hh. rewrite <- app_assoc. f_equal. f_equal. f_equal. f_equal.
  rewrite !len_app. unfold len at 1 3. rewrite header_of_length.
  cbn [List.length]. f_equal. f_equal. lia.
Qed.

Lemma len_encode (d : CPIOInfo) :
  fits_header d ->
  len (encode d) = (ENTRY_HEADER_size + len (_name d) + 1 + 3) / 4 * 4.
Proof.
  intros Hd. rewrite (encode_layout d Hd). unfold ENTRY_HEADER_size.
  rewrite <- pad_round. pose proof (padding_bounds (110 + len (_name d) + 1)).
  rewrite !len_app, len_zeros by lia.
  unfold len at 1 3. rewrite header_of_length. cbn [List.length]. lia.
Qed.

Lemma header_of_fields (d : CPIOInfo) (o : Z) :
  fits_header d ->
  fields_of (header_of d) (at_offset o d)
  /\ int16 (header_field 11 (header_of d)) = Some (len (_name d) + 1)
  /\ header_magic (header_of d) = b_lit "070701".
Proof.
  intros (H0 & H1 & H2 & H3 & H4 & H5 & H6 & H7 & H8 & H9 & H10 & H11).
  unfold fields_of. cbn [at_offset ino mode uid gid nlink mtime filesize
                          devmajor devminor rdevmajor rdevminor].
  repeat split;
    match goal with
    | |- int16 (header_field ?i _) = Some ?v =>
      change (int16 (hex_fixed 8 v) = Some v); apply int16_hex_fixed;
        assumption
    | |- _ => reflexivity
    end.
Qed.

(** ** Decoding what was encoded *)


(** An encoded entry found at the cursor is decoded into its descriptor,
    placed at that offset. *)
Lemma from_file_encoded (pre rest : bytes) (d : CPIOInfo) (s : pystr) :
  fits_header d ->
  utf8_decode (_name d) = Some s ->
  _from_file (mkFile (pre ++ encode d ++ rest) (len pre))
  = (Ok (at_offset (len pre) d),
     mkFile (pre ++ encode d ++ rest)
       (len pre + 110 + (len (_name d) + 1))).
Proof.
  intros Hd Hs.
  set (f := mkFile (pre ++ encode d ++ rest) (len pre)).
  assert (Hh : header_at f = header_of d).
  { unfold header_at, f. cbn [cursor content].
    rewrite to_nat_len, skipn_length_app, (encode_layout d Hd).
    rewrite <- app_assoc. rewrite <- (header_of_length d).
    apply firstn_length_app. }
  destruct (header_of_fields d (len pre) Hd) as (Hf & Hns & Hm).
  apply (from_file_ok_intro f (at_offset (len pre) d) _ s).
  - rewrite Hh. unfold len. rewrite header_of_length. reflexivity.
  - rewrite Hh. exact Hm.
  - rewrite Hh. exact Hf.
  - rewrite Hh. exact Hns.
  - unfold name_at, after_header. rewrite Hh. cbn [cursor content f
      at_offset _name].
    replace (Z.to_nat (len pre + len (header_of d)))
      with (List.length (pre ++ header_of d))
      by (rewrite length_app; unfold len; lia).
    rewrite (encode_layout d Hd).
    replace (pre ++ (header_of d ++ (_name d ++ [x00]) ++ zeros _) ++ rest)
      with ((pre ++ header_of d)
            ++ (_name d ++ [x00]) ++ (zeros ((4 - (110 + len (_name d) + 1)
                                              mod 4) mod 4) ++ rest))
      by (rewrite <- !app_assoc; reflexivity).
    rewrite skipn_length_app.
    replace (Z.to_nat (len (_name d) + 1))
      with (List.length (_name d ++ [x00]))
      by (rewrite length_app; unfold len; cbn [List.length]; lia).
    apply firstn_length_app.
  - reflexivity.
  - exact Hs.
  - reflexivity.
Qed.

(** ** Scanning what was written *)

Lemma at_offset_props (o : Z) (d : CPIOInfo) :
  _offset (at_offset o d) = o
  /\ _name (at_offset o d) = _name d
  /\ filesize (at_offset o d) = filesize d
  /\ name (at_offset o d) = name d.
Proof. repeat split. Qed.

Lemma len_entry (info : CPIOInfo) (data : bytes) :
  fits_header info -> len data = filesize info ->
  len (entry info data) = _offset_after (at_offset 0 info).
Proof.
  intros Hd Hl. unfold entry, _offset_after, _offset_data.
  cbn [at_offset _offset _name filesize].
  pose proof (padding_bounds (len data)) as Hp.
  rewrite !len_app, len_zeros, (len_encode info Hd) by lia.
  rewrite <- Hl, <- (pad_round (len data)). lia.
Qed.

Lemma offset_after_at (o : Z) (d : CPIOInfo) :
  _offset_after (at_offset o d) = o + _offset_after (at_offset 0 d).
Proof.
  unfold _offset_after, _offset_data.
  cbn [at_offset _offset _name filesize]. lia.
Qed.


Lemma pystr_eqb_neq (a b : pystr) : a <> b -> pystr_eqb a b = false.
Proof.
  intros H. unfold pystr_eqb.
  destruct (list_eq_dec Z.eq_dec a b); [contradiction|reflexivity].
Qed.

(** The turn of the scan that meets an encoded member yields it. *)
Lemma scan_meets_entry (g : gen_state) (pre tail : bytes) (cur : Z)
  (info : CPIOInfo) (s : pystr) :
  points_to g (len pre) ->
  fits_header info ->
  utf8_decode (_name info) = Some s -> s <> TRAILER ->
  infolist_next g (mkFile (pre ++ encode info ++ tail) cur)
  = (Yielded (at_offset (len pre) info),
     GenSuspended (at_offset (len pre) info),
     mkFile (pre ++ encode info ++ tail)
       (len pre + 110 + (len (_name info) + 1))).
Proof.
  intros Hg Hd Hs Hne.
  rewrite (seek_to g (len pre)) by (auto; apply len_nonneg).
  cbn [content]. unfold infolist_body.
  rewrite (from_file_encoded pre tail info s Hd Hs).
  unfold name. cbn [at_offset _name]. rewrite Hs.
  rewrite (pystr_eqb_neq _ _ Hne). reflexivity.
Qed.

(** The turn of the scan that meets the trailer ends it. *)
Lemma scan_meets_trailer (g : gen_state) (pre tail : bytes) (cur : Z) :
  points_to g (len pre) ->
  infolist_next g (mkFile (pre ++ trailer_entry ++ tail) cur)
  = (StopIteration, GenFinished,
     mkFile (pre ++ trailer_entry ++ tail) (len pre + 110 + 11)).
Proof.
  intros Hg.
  rewrite (seek_to g (len pre)) by (auto; apply len_nonneg).
  cbn [content]. unfold infolist_body. rewrite <- encode_trailer.
  rewrite (from_file_encoded pre tail trailer_info TRAILER).
  - reflexivity.
  - unfold fits_header, u32. vm_compute. intuition discriminate.
  - reflexivity.
Qed.

(** The turn of the scan that meets the end of the store fails. *)
Lemma scan_meets_end (g : gen_state) (pre : bytes) (cur : Z) :
  points_to g (len pre) ->
  infolist_next g (mkFile pre cur)
  = (GenRaised (BadCPIOFile Truncated), GenFinished, mkFile pre (len pre)).
Proof.
  intros Hg.
  rewrite (seek_to g (len pre)) by (auto; apply len_nonneg).
  cbn [content]. unfold infolist_body, _from_file.
  rewrite (bind_step tell _ _ _ _ eq_refl).
  rewrite (bind_step (read ENTRY_HEADER_size) _ _ _ _ (read_header _)).
  assert (Hh : header_at (mkFile pre (len pre)) = []).
  { unfold header_at. cbn [cursor content].
    rewrite to_nat_len, skipn_all. reflexivity. }
  unfold after_header. rewrite Hh. cbn [cursor content].
  change (len (@nil byte)) with 0. rewrite Z.add_0_r. reflexivity.
Qed.

(** ** Writing a member and reading it back *)

Lemma append_step {B} (data : bytes) (k : M World B) (w : World) :
  (on_fp seek_end ;;; on_fp (write data) ;;; k) w
  = k (mkWorld
         (mkCPIOFile
            (mkFile (content (_fp (archive w)) ++ data)
               (len (content (_fp (archive w))) + len data))
            (_writeable (archive w)) (_writer_active (archive w)))
         (heap w)).
Proof.
  destruct w as [[f wr la] hp]. unfold bind, on_fp, seek_end.
  cbn [archive _fp _writeable _writer_active heap content cursor].
  rewrite write_at_end. reflexivity.
Qed.

Lemma writer_write_last (c : bytes) (cur : Z) (wr la : bool)
  (hp : list _WriteableMember) (o : _WriteableMember) (data : bytes) :
  WriteableMember_write (List.length hp) data
    (mkWorld (mkCPIOFile (mkFile c cur) wr la) (hp ++ [o]))
  = (Ok tt,
     mkWorld (mkCPIOFile (mkFile (c ++ data) (len c + len data)) wr la)
       (hp ++ [mkWriteableMember (_expected_length o)
                 (_actual_length o + len data) (_closed o)])).
Proof.
  unfold WriteableMember_write. rewrite append_step.
  cbn [archive _fp _writeable _writer_active heap content].
  unfold bind, deref, assign. cbn [heap archive].
  rewrite nth_error_app2, Nat.sub_diag by lia.
  cbn [nth_error heap archive]. rewrite set_nth_last. reflexivity.
Qed.

Lemma write_chunks_last (chunks : list bytes) :
  forall (c : bytes) (wr la : bool) (hp : list _WriteableMember)
         (e a : Z) (cl : bool),
    write_chunks (List.length hp) chunks
      (mkWorld (mkCPIOFile (mkFile c (len c)) wr la)
         (hp ++ [mkWriteableMember e a cl]))
    = (Ok tt,
       mkWorld
         (mkCPIOFile
            (mkFile (c ++ List.concat chunks)
               (len (c ++ List.concat chunks))) wr la)
         (hp ++ [mkWriteableMember e (a + len (List.concat chunks)) cl])).
Proof.
  induction chunks as [|x r IH]; intros c wr la hp e a cl.
  - cbn [write_chunks List.concat]. unfold ret.
    rewrite app_nil_r. change (len (@nil byte)) with 0.
    rewrite Z.add_0_r. reflexivity.
  - cbn [write_chunks List.concat]. unfold bind.
    rewrite writer_write_last.
    cbn [_expected_length _actual_length _closed].
    rewrite <- len_app, IH. rewrite <- app_assoc, (len_app x), Z.add_assoc.
    reflexivity.
Qed.

(** Writing a member whose data has the declared length appends its entry
    and leaves the latch clear. *)
Lemma write_member_ok (w : World) (info : CPIOInfo) (chunks : list bytes) :
  _writeable (archive w) = true ->
  _writer_active (archive w) = false ->
  len (List.concat chunks) = filesize info ->
  write_member info chunks w
  = (Ok tt,
     mkWorld
       (mkCPIOFile
          (mkFile
             (content (_fp (archive w)) ++ entry info (List.concat chunks))
             (len (content (_fp (archive w))
                   ++ entry info (List.concat chunks))))
          true false)
       (heap w ++ [mkWriteableMember (filesize info) (filesize info) true])).
Proof.
  intros Hw Hl Hlen. destruct w as [[[c cur] wr la] hp].
  cbn [archive _writeable _writer_active] in Hw, Hl. subst wr la.
  cbn [archive _fp content heap].
  unfold write_member, CPIOFile_open.
  cbn [String.eqb Ascii.eqb Bool.eqb].
  unfold bind at 1 2 3. unfold get_archive. cbn [archive _writeable].
  rewrite writer_init_ok by reflexivity.
  unfold ret at 1. unfold opened_world.
  cbn [archive _fp _writeable content heap].
  unfold bind. rewrite <- len_app, write_chunks_last.
  unfold member_exit.
  rewrite (writer_close_ok _ _
             (mkWriteableMember (filesize info)
                (0 + len (List.concat chunks)) false));
    [| cbn [heap]; rewrite nth_error_app2, Nat.sub_diag by lia; reflexivity
     | reflexivity
     | cbn [_actual_length _expected_length]; lia ].
  unfold closed_world.
  cbn [archive _fp _writeable content cursor heap _actual_length
       _expected_length].
  rewrite set_nth_last. rewrite Z.add_0_l, Hlen.
  pose proof (padding_bounds (filesize info)) as Hp.
  unfold entry. rewrite Hlen. rewrite <- !app_assoc.
  rewrite !len_app, len_zeros by lia. rewrite Hlen, !Z.add_assoc.
  reflexivity.
Qed.

(** A read stream over [data] found at [len pre]: [read(n)] from position
    [p] returns the next bytes, all of them for a negative or too large
    [n]. *)
Lemma read_member (pre data tail : bytes) (cur p n : Z) :
  0 <= p <= len data ->
  let k := if (n <? 0) || (n >? len data - p) then len data - p else n in
  let got := firstn (Z.to_nat k) (skipn (Z.to_nat p) data) in
  ReadableMember_read (mkReadableMember (len pre) (len data) p) n
    (mkFile (pre ++ data ++ tail) cur)
  = (Ok (got, mkReadableMember (len pre) (len data) (p + len got)),
     mkFile (pre ++ data ++ tail) (len pre + p + len got)).
Proof.
  intros Hp k got. unfold ReadableMember_read, _read.
  cbn [_start _length _pos]. fold k.
  assert (Hk : 0 <= k <= len data - p).
  { unfold k. destruct (Z.ltb_spec n 0); cbn [orb]; [lia|].
    destruct (n >? len data - p) eqn:E; [lia|].
    rewrite Z.gtb_ltb in E. apply Z.ltb_ge in E. lia. }
  pose proof (len_nonneg pre) as Hpre.
  unfold bind, seek_set. destruct (Z.ltb_spec (len pre + p) 0); [lia|].
  unfold read. cbn [content cursor].
  destruct (Z.ltb_spec k 0); [lia|].
  assert (Hskip : skipn (Z.to_nat (len pre + p)) (pre ++ data ++ tail)
                  = skipn (Z.to_nat p) data ++ tail).
  { replace (Z.to_nat (len pre + p))
      with (List.length pre + Z.to_nat p)%nat by (unfold len; lia).
    rewrite skipn_app. rewrite skipn_all2 by lia.
    replace (List.length pre + Z.to_nat p - List.length pre)%nat
      with (Z.to_nat p) by lia.
    cbn [app]. rewrite skipn_app.
    replace (Z.to_nat p - List.length data)%nat with 0%nat
      by (unfold len in Hp; lia).
    reflexivity. }
  rewrite Hskip.
  assert (Hfirst : firstn (Z.to_nat k) (skipn (Z.to_nat p) data ++ tail)
                   = got).
  { unfold got. rewrite firstn_app.
    replace (Z.to_nat k - List.length (skipn (Z.to_nat p) data))%nat
      with 0%nat
      by (rewrite length_skipn; unfold len in Hk, Hp; lia).
    cbn [firstn]. apply app_nil_r. }
  rewrite Hfirst. reflexivity.
Qed.

Lemma archive_bytes_app (a b : list (CPIOInfo * bytes)) :
  archive_bytes (a ++ b) = archive_bytes a ++ archive_bytes b.
Proof.
  induction a as [|m a IH]; [reflexivity|].
  cbn [app archive_bytes]. rewrite IH, app_assoc. reflexivity.
Qed.

Lemma descriptors_app (a b : list (CPIOInfo * bytes)) :
  forall o,
    descriptors o (a ++ b)
    = descriptors o a ++ descriptors (o + len (archive_bytes a)) b.
Proof.
  induction a as [|m a IH]; intros o.
  - cbn [app descriptors archive_bytes]. change (len (@nil byte)) with 0.
    rewrite Z.add_0_r. reflexivity.
  - cbn [app descriptors archive_bytes]. rewrite IH, len_app, Z.add_assoc.
    reflexivity.
Qed.

Lemma suspended_points_past (pre : bytes) (info : CPIOInfo) (data : bytes) :
  fits_header info -> len data = filesize info ->
  points_to (GenSuspended (at_offset (len pre) info))
    (len (pre ++ entry info data)).
Proof.
  intros Hd Hl. cbn [points_to].
  rewrite offset_after_at, len_app, (len_entry info data Hd Hl).
  reflexivity.
Qed.

(** Scanning a store of sound members that ends there: every descriptor is
    yielded, then the scan fails on the missing header. *)
Lemma scan_archive_open (ms : list (CPIOInfo * bytes)) :
  forall (g : gen_state) (pre : bytes) (cur : Z) (k : nat),
    Forall sound_member ms ->
    points_to g (len pre) ->
    fst (infolist_run (List.length ms + S k) g
           (mkFile (pre ++ archive_bytes ms) cur))
    = (descriptors (len pre) ms, Failed (BadCPIOFile Truncated)).
Proof.
  induction ms as [|[info data] ms IH]; intros g pre cur k Hall Hg.
  - cbn [archive_bytes List.length Nat.add infolist_run descriptors].
    rewrite app_nil_r, (scan_meets_end g pre cur Hg). reflexivity.
  - inversion Hall as [|m l Hm Hrest]; subst.
    destruct Hm as (Hd & (s & Hs & Hne) & Hl). cbn [fst snd] in *.
    cbn [archive_bytes List.length Nat.add infolist_run descriptors fst snd].
    unfold entry at 1. rewrite <- !app_assoc.
    rewrite (scan_meets_entry g pre _ cur info s Hg Hd Hs Hne).
    specialize (IH (GenSuspended (at_offset (len pre) info))
                  (pre ++ entry info data)
                  (len pre + 110 + (len (_name info) + 1)) k Hrest
                  (suspended_points_past pre info data Hd Hl)).
    unfold entry at 1 in IH. rewrite <- !app_assoc in IH.
    destruct (infolist_run _ _ _) as [[l0 o0] f0]. cbn [fst] in *.
    injection IH as -> ->. rewrite len_app. reflexivity.
Qed.

(** Scanning a store of sound members followed by the trailer: every
    descriptor is yielded, then the scan ends. *)
Lemma scan_archive_closed (ms : list (CPIOInfo * bytes)) :
  forall (g : gen_state) (pre tail : bytes) (cur : Z) (k : nat),
    Forall sound_member ms ->
    points_to g (len pre) ->
    fst (infolist_run (List.length ms + S k) g
           (mkFile (pre ++ archive_bytes ms ++ trailer_entry ++ tail) cur))
    = (descriptors (len pre) ms, Exhausted).
Proof.
  induction ms as [|[info data] ms IH]; intros g pre tail cur k Hall Hg.
  - cbn [archive_bytes List.length Nat.add infolist_run descriptors app].
    rewrite (scan_meets_trailer g pre tail cur Hg). reflexivity.
  - inversion Hall as [|m l Hm Hrest]; subst.
    destruct Hm as (Hd & (s & Hs & Hne) & Hl). cbn [fst snd] in *.
    cbn [archive_bytes List.length Nat.add infolist_run descriptors fst snd].
    unfold entry at 1. rewrite <- !app_assoc.
    rewrite (scan_meets_entry g pre _ cur info s Hg Hd Hs Hne).
    specialize (IH (GenSuspended (at_offset (len pre) info))
                  (pre ++ entry info data) tail
                  (len pre + 110 + (len (_name info) + 1)) k Hrest
                  (suspended_points_past pre info data Hd Hl)).
    unfold entry at 1 in IH. rewrite <- !app_assoc in IH.
    destruct (infolist_run _ _ _) as [[l0 o0] f0]. cbn [fst] in *.
    injection IH as -> ->. rewrite len_app. reflexivity.
Qed.

(** Reading a scanned member back: the first [read()] returns its data,
    the second nothing. *)
Lemma read_twice_member (pre tail data : bytes) (info : CPIOInfo) (cur : Z) :
  fits_header info -> len data = filesize info ->
  fst (read_twice (at_offset (len pre) info)
         (reading_world (pre ++ encode info ++ data ++ tail) cur))
  = Ok (data, []).
Proof.
  intros Hd Hl. pose proof (len_nonneg data) as Hn.
  unfold read_twice, CPIOFile_open. cbn [String.eqb Ascii.eqb Bool.eqb].
  unfold bind at 1. unfold ret at 1. unfold ReadableMember_init.
  unfold _offset_data. cbn [at_offset _offset _name filesize].
  rewrite <- (len_encode info Hd), <- len_app, <- Hl.
  unfold reading_world, bind, on_fp. cbn [archive _fp].
  replace (pre ++ encode info ++ data ++ tail)
    with ((pre ++ encode info) ++ data ++ tail)
    by (rewrite <- app_assoc; reflexivity).
  rewrite (read_member (pre ++ encode info) data tail cur 0 (-1))
    by lia.
  cbn [Z.ltb Z.compare orb snd fst archive _fp].
  rewrite Z.sub_0_r, to_nat_len. cbn [Z.to_nat skipn].
  rewrite firstn_all. rewrite Z.add_0_l.
  rewrite (read_member (pre ++ encode info) data tail _ (len data) (-1))
    by lia.
  cbn [Z.ltb Z.compare orb snd fst].
  rewrite Z.sub_diag. cbn [Z.to_nat firstn]. reflexivity.
Qed.

(** C1, as the code has it: take a writeable archive with the latch clear
    whose store holds earlier sound members [ms] (none, for an empty
    store), and a descriptor built from 32-bit numeric fields and a name
    [s] other than [TRAILER!!!].  Writing the member (header by [encode],
    then the chunks, [filesize] bytes in all, then [close]) appends its
    entry.  A scan of that store yields the earlier descriptors and then
    the member's, before it fails on the end of the store; after
    [CPIOFile.close] the same scan ends at the trailer.  The yielded
    descriptor has the numeric fields given and the name [s], and its read
    stream returns the written bytes, then nothing. *)
Theorem member_round_trip
  (v_offset v_ino v_mode v_uid v_gid v_nlink v_mtime v_filesize v_devmajor
   v_devminor v_rdevmajor v_rdevminor : Z)
  (s : pystr) (info : CPIOInfo) (chunks : list bytes)
  (ms : list (CPIOInfo * bytes)) (w : World) :
  CPIOInfo_init v_offset v_ino v_mode v_uid v_gid v_nlink v_mtime v_filesize
    v_devmajor v_devminor v_rdevmajor v_rdevminor s = Ok info ->
  fits_header info ->
  s <> TRAILER ->
  len (List.concat chunks) = v_filesize ->
  Forall sound_member ms ->
  _writeable (archive w) = true ->
  _writer_active (archive w) = false ->
  content (_fp (archive w)) = archive_bytes ms ->
  let data := List.concat chunks in
  let d := at_offset (len (archive_bytes ms)) info in
  exists w1 w2,
    write_member info chunks w = (Ok tt, w1)
    /\ content (_fp (archive w1)) = archive_bytes ms ++ entry info data
    /\ CPIOFile_close w1 = (Ok tt, w2)
    /\ content (_fp (archive w2))
       = archive_bytes ms ++ entry info data ++ trailer_entry
    /\ (forall k,
          fst (infolist (List.length ms + 2 + k) (_fp (archive w1)))
          = (descriptors 0 ms ++ [d], Failed (BadCPIOFile Truncated))
          /\ fst (infolist (List.length ms + 2 + k) (_fp (archive w2)))
             = (descriptors 0 ms ++ [d], Exhausted))
    /\ name d = Ok s
    /\ (ino d, mode d, uid d, gid d, nlink d, mtime d, filesize d,
        devmajor d, devminor d, rdevmajor d, rdevminor d)
       = (v_ino, v_mode, v_uid, v_gid, v_nlink, v_mtime, v_filesize,
          v_devmajor, v_devminor, v_rdevmajor, v_rdevminor)
    /\ (forall cur,
          fst (read_twice d (reading_world (content (_fp (archive w1))) cur))
          = Ok (data, [])
          /\ fst (read_twice d
                    (reading_world (content (_fp (archive w2))) cur))
             = Ok (data, [])).
Proof.
  intros Hinit Hfits Hname Hlen Hms Hw Hla Hc data d.
  unfold CPIOInfo_init in Hinit.
  destruct (utf8_encode s) as [nb|] eqn:Henc; [|discriminate].
  apply utf8_decode_encode in Henc.
  injection Hinit as <-. cbn [filesize _name] in *.
  set (info := mkCPIOInfo v_offset v_ino v_mode v_uid v_gid v_nlink v_mtime
                 v_filesize v_devmajor v_devminor v_rdevmajor v_rdevminor nb)
    in *.
  assert (Hsound : sound_member (info, data)).
  { split; [exact Hfits|]. split; [exists s; split; assumption|exact Hlen]. }
  assert (Hall : Forall sound_member (ms ++ [(info, data)]))
    by (apply Forall_app; split; [exact Hms|constructor; [exact Hsound|constructor]]).
  assert (Hbytes : archive_bytes (ms ++ [(info, data)])
                   = archive_bytes ms ++ entry info data).
  { rewrite archive_bytes_app. cbn [archive_bytes fst snd].
    rewrite app_nil_r. reflexivity. }
  assert (Hdescs : descriptors 0 (ms ++ [(info, data)])
                   = descriptors 0 ms ++ [d]).
  { rewrite descriptors_app. cbn [descriptors fst]. reflexivity. }
  pose proof (write_member_ok w info chunks Hw Hla Hlen) as Hwrite.
  fold data in Hwrite. rewrite Hc in Hwrite.
  eexists. eexists.
  split; [exact Hwrite|]. cbn [archive _fp content].
  split; [reflexivity|].
  split.
  { apply archive_close_ok; reflexivity. }
  cbn [archive _fp content]. rewrite encode_trailer, <- app_assoc.
  split; [reflexivity|].
  split.
  { intros k. rewrite <- Hdescs, <- Hbytes. unfold infolist. split.
    - replace (List.length ms + 2 + k)%nat
        with (List.length (ms ++ [(info, data)]) + S k)%nat
        by (rewrite length_app; cbn [List.length]; lia).
      apply (scan_archive_open _ GenStart [] _ k Hall). reflexivity.
    - replace (List.length ms + 2 + k)%nat
        with (List.length (ms ++ [(info, data)]) + S k)%nat
        by (rewrite length_app; cbn [List.length]; lia).
      rewrite app_assoc, <- Hbytes.
      rewrite <- (app_nil_r trailer_entry).
      apply (scan_archive_closed _ GenStart [] [] _ k Hall). reflexivity. }
  split.
  { unfold name, d. cbn [at_offset _name info]. rewrite Henc. reflexivity. }
  split; [reflexivity|].
  intros cur. unfold entry. split.
  - apply read_twice_member; assumption.
  - rewrite <- !app_assoc. apply read_twice_member; assumption.
Qed.

Lemma member_round_trip_witness :
  exists w1 w2,
    write_member hello_info [b_lit "wor"; b_lit "ld"] earlier_world
    = (Ok tt, w1)
    /\ CPIOFile_close w1 = (Ok tt, w2)
    /\ fst (infolist 3 (_fp (archive w2)))
       = ([earlier_info; at_offset 116 hello_info], Exhausted)
    /\ name (at_offset 116 hello_info) = Ok (s_lit "hello.txt")
    /\ fst (read_twice (at_offset 116 hello_info)
              (reading_world (content (_fp (archive w2))) 0))
       = Ok (b_lit "world", []).
Proof.
  destruct (member_round_trip 0 1 33188 1000 1000 1 1700000000 5 8 1 0 0
              (s_lit "hello.txt") hello_info [b_lit "wor"; b_lit "ld"]
              [(earlier_info, b_lit "xyz")] earlier_world)
    as (w1 & w2 & Hw & _ & Hc & _ & Hscan & Hname & _ & Hread).
  - reflexivity.
  - unfold fits_header, u32. vm_compute. intuition discriminate.
  - intros H. vm_compute in H. discriminate.
  - reflexivity.
  - constructor; [|constructor]. split; [|split].
    + unfold fits_header, u32. vm_compute. intuition discriminate.
    + exists (s_lit "a"). split; [reflexivity|].
      intros H. vm_compute in H. discriminate.
    + reflexivity.
  - reflexivity.
  - reflexivity.
  - reflexivity.
  - exists w1, w2. split; [exact Hw|]. split; [exact Hc|].
    split; [exact (proj2 (Hscan 0%nat))|]. split; [exact Hname|].
    exact (proj2 (Hread 0)).
Defined.

(** C1 as stated fails for the name [TRAILER!!!]: the member is written,
    with its four data bytes, and the scan of the store yields no
    descriptor at all, before and after the archive is closed. *)
Lemma member_named_trailer_is_lost :
  CPIOInfo_init 0 1 33188 0 0 1 0 4 0 0 0 0 TRAILER = Ok trailer_named_info
  /\ write_member trailer_named_info [b_lit "data"] fresh_world
     = (Ok tt, trailer_named_world)
  /\ content (_fp (archive trailer_named_world))
     = entry trailer_named_info (b_lit "data")
  /\ fst (infolist 3 (_fp (archive trailer_named_world))) = ([], Exhausted)
  /\ CPIOFile_close trailer_named_world = (Ok tt, trailer_named_closed)
  /\ fst (infolist 3 (_fp (archive trailer_named_closed)))
     = ([], Exhausted).
Proof.
  split; [reflexivity|].
  split; [vm_compute; reflexivity|].
  split; [reflexivity|].
  split; [vm_compute; reflexivity|].
  split; vm_compute; reflexivity.
Qed.

(** * Further properties of the code *)

(** ** Names and headers *)

Lemma encode_cp_none (c : Z) :
  utf8_encode_cp c = None <-> ~ unicode_scalar c.
Proof.
  unfold utf8_encode_cp, unicode_scalar.
  destruct (Z.ltb_spec c 0); [split; [lia|reflexivity]|].
  destruct (Z.ltb_spec c 128); [split; [discriminate|lia]|].
  destruct (Z.ltb_spec c 2048); [split; [discriminate|lia]|].
  destruct (Z.ltb_spec c 65536).
  - destruct (Z.leb_spec 55296 c), (Z.leb_spec c 57343); cbn [andb];
      split; try discriminate; try reflexivity; lia.
  - destruct (Z.ltb_spec c 1114112); split; try discriminate;
      try reflexivity; lia.
Qed.

Lemma utf8_encode_some (s : pystr) :
  Forall unicode_scalar s <-> exists b, utf8_encode s = Some b.
Proof.
  induction s as [|c r IH]; cbn [utf8_encode].
  - split; [intros _; exists []; reflexivity|constructor].
  - destruct (utf8_encode_cp c) as [a|] eqn:Ec.
    + assert (Hc : unicode_scalar c).
      { destruct (encode_cp_none c) as [_ Hn].
        unfold unicode_scalar in *.
        destruct (Z.ltb_spec c 0), (Z.ltb_spec c 55296),
          (Z.ltb_spec 57343 c), (Z.ltb_spec c 1114112); try lia;
          rewrite Hn in Ec by lia; discriminate. }
      destruct (utf8_encode r) as [b|].
      * split; [intros _; exists (a ++ b); reflexivity|].
        intros _. constructor; [exact Hc|]. apply IH. exists b. reflexivity.
      * split.
        -- intros H. inversion H as [|x l Hx Hl]; subst.
           apply IH in Hl. destruct Hl as [b Hb]. discriminate.
        -- intros [b Hb]. discriminate.
    + split.
      * intros H. inversion H as [|x l Hx Hl]; subst.
        apply encode_cp_none in Ec. contradiction.
      * intros [b Hb]. discriminate.
Qed.

(** X1: [CPIOInfo.__init__] followed by the [name] property gives the name
    back, for every name made of encodable code points; a name holding a
    surrogate (or a number that is no code point) makes [__init__] raise
    [UnicodeEncodeError].  The numeric arguments are stored as given. *)
Theorem init_then_name
  (v_offset v_ino v_mode v_uid v_gid v_nlink v_mtime v_filesize v_devmajor
   v_devminor v_rdevmajor v_rdevminor : Z) (s : pystr) :
  (Forall unicode_scalar s ->
   exists nb,
     utf8_encode s = Some nb
     /\ CPIOInfo_init v_offset v_ino v_mode v_uid v_gid v_nlink v_mtime
          v_filesize v_devmajor v_devminor v_rdevmajor v_rdevminor s
        = Ok (mkCPIOInfo v_offset v_ino v_mode v_uid v_gid v_nlink v_mtime
                v_filesize v_devmajor v_devminor v_rdevmajor v_rdevminor nb)
     /\ name (mkCPIOInfo v_offset v_ino v_mode v_uid v_gid v_nlink v_mtime
                v_filesize v_devmajor v_devminor v_rdevmajor v_rdevminor nb)
        = Ok s)
  /\ (~ Forall unicode_scalar s ->
      CPIOInfo_init v_offset v_ino v_mode v_uid v_gid v_nlink v_mtime
        v_filesize v_devmajor v_devminor v_rdevmajor v_rdevminor s
      = Raise UnicodeEncodeError).
Proof.
  split.
  - intros Hs. apply utf8_encode_some in Hs. destruct Hs as [nb Hnb].
    exists nb. split; [exact Hnb|]. unfold CPIOInfo_init, name.
    rewrite Hnb. cbn [_name]. rewrite (utf8_decode_encode s nb Hnb).
    split; reflexivity.
  - intros Hs. unfold CPIOInfo_init.
    destruct (utf8_encode s) as [nb|] eqn:E; [|reflexivity].
    exfalso. apply Hs. apply utf8_encode_some. exists nb. exact E.
Qed.

Lemma init_then_name_witness :
  (exists nb,
     utf8_encode [104; 233; 8364] = Some nb
     /\ CPIOInfo_init 0 1 2 3 4 5 6 7 8 9 10 11 [104; 233; 8364]
        = Ok (mkCPIOInfo 0 1 2 3 4 5 6 7 8 9 10 11 nb)
     /\ name (mkCPIOInfo 0 1 2 3 4 5 6 7 8 9 10 11 nb)
        = Ok [104; 233; 8364])
  /\ CPIOInfo_init 0 1 2 3 4 5 6 7 8 9 10 11 [104; 55296]
     = Raise UnicodeEncodeError.
Proof.
  split.
  - apply (proj1 (init_then_name 0 1 2 3 4 5 6 7 8 9 10 11 [104; 233; 8364])).
    repeat constructor; unfold unicode_scalar; lia.
  - apply (proj2 (init_then_name 0 1 2 3 4 5 6 7 8 9 10 11 [104; 55296])).
    intros H. inversion H as [|x l _ H1]; subst.
    inversion H1 as [|y l' H2 _]; subst. unfold unicode_scalar in H2. lia.
Defined.

Lemma pack_s_length (n : nat) (b : bytes) : List.length (pack_s n b) = n.
Proof.
  unfold pack_s. rewrite length_app, length_firstn, repeat_length. lia.
Qed.

(** X2: whatever the field values and the name, [encode] returns a block
    whose length is a multiple of 4 and is exactly the distance from the
    header offset to [_offset_data]: the 110 header bytes, the name, its
    NUL and the padding. *)
Theorem encode_length (d : CPIOInfo) :
  len (encode d) = _offset_data d - _offset d
  /\ len (encode d) mod 4 = 0
  /\ 112 <= len (encode d).
Proof.
  assert (Hl : len (encode d) = (110 + len (_name d) + 1 + 3) / 4 * 4).
  { unfold encode, ENTRY_HEADER_pack. cbv zeta. cbn [map List.concat].
    rewrite <- pad_round.
    set (h := pack_s 6 (b_lit "070701") ++ _).
    assert (Hh : len (h ++ _name d ++ [x00]) = 110 + len (_name d) + 1).
    { rewrite !len_app. unfold len at 1 3. unfold h.
      repeat (rewrite length_app, ?pack_s_length). cbn [List.length]. lia. }
    pose proof (padding_bounds (110 + len (_name d) + 1)) as Hp.
    rewrite len_app, Hh, len_zeros by lia. reflexivity. }
  pose proof (len_nonneg (_name d)) as Hn.
  split; [|split].
  - rewrite Hl. unfold _offset_data, ENTRY_HEADER_size. lia.
  - rewrite Hl. apply Z.mod_mul. lia.
  - rewrite Hl.
    assert (28 <= (110 + len (_name d) + 1 + 3) / 4)
      by (apply Z.div_le_lower_bound; lia).
    lia.
Qed.

Lemma firstn_hex_fixed (k n : nat) :
  forall x, firstn n (hex_fixed (n + k) x) = hex_fixed n (x / 16 ^ Z.of_nat k).
Proof.
  induction k as [|k IH]; intros x.
  - rewrite Nat.add_0_r. cbn [Z.of_nat Z.pow]. rewrite Z.div_1_r.
    rewrite <- (hex_fixed_length n x) at 1. apply firstn_all.
  - rewrite Nat.add_succ_r. cbn [hex_fixed].
    rewrite firstn_app, hex_fixed_length.
    replace (n - (n + k))%nat with 0%nat by lia.
    cbn [firstn]. rewrite app_nil_r, IH.
    rewrite Nat2Z.inj_succ, Z.pow_succ_r by lia.
    rewrite Z.div_div by lia. reflexivity.
Qed.

Lemma hex_width_spec (x : Z) :
  0 < x ->
  16 ^ (Z.of_nat (hex_width x) - 1) <= x < 16 ^ Z.of_nat (hex_width x).
Proof.
  intros Hx. unfold hex_width. destruct (Z.leb_spec x 0); [lia|].
  pose proof (Z.log2_nonneg x) as Hn.
  destruct (Z.log2_spec x Hx) as [Hlo Hhi].
  set (l := Z.log2 x) in *.
  assert (Hq : 0 <= l / 4) by (apply Z.div_pos; lia).
  pose proof (Z.div_mod l 4 ltac:(lia)) as Hd.
  pose proof (Z.mod_pos_bound l 4 ltac:(lia)) as Hm.
  rewrite Z2Nat.id by lia.
  replace (l / 4 + 1 - 1) with (l / 4) by lia.
  change 16 with (2 ^ 4). rewrite <- !Z.pow_mul_r by lia.
  split.
  - apply Z.le_trans with (2 ^ l); [|exact Hlo].
    apply Z.pow_le_mono_r; lia.
  - apply Z.lt_le_trans with (2 ^ Z.succ l); [exact Hhi|].
    apply Z.pow_le_mono_r; lia.
Qed.

(** X3: a field value of 2^32 or more is not refused by [encode]: its hex
    form has [w > 8] digits, the [8s] field keeps the first eight, and
    [int(field, 16)] reads them back as the value divided by [16^(w-8)],
    which is smaller than the value written. *)
Theorem wide_field_is_truncated (x : Z) :
  4294967296 <= x ->
  let k := Z.of_nat (hex_width x) - 8 in
  0 < k
  /\ int16 (pack_s 8 (format_08x x)) = Some (x / 16 ^ k)
  /\ x / 16 ^ k < x.
Proof.
  intros Hx k.
  destruct (hex_width_spec x ltac:(lia)) as [Hlo Hhi].
  assert (Hw : (9 <= hex_width x)%nat).
  { destruct (le_lt_dec 9 (hex_width x)) as [|Hlt]; [assumption|].
    exfalso.
    assert (16 ^ Z.of_nat (hex_width x) <= 16 ^ 8)
      by (apply Z.pow_le_mono_r; lia).
    change (16 ^ 8) with 4294967296 in *. lia. }
  assert (Hk : 0 < k) by (unfold k; lia).
  split; [exact Hk|].
  assert (Hpow : 1 < 16 ^ k).
  { change 1 with (16 ^ 0). apply Z.pow_lt_mono_r; lia. }
  assert (Hfmt : pack_s 8 (format_08x x) = hex_fixed 8 (x / 16 ^ k)).
  { unfold format_08x. destruct (Z.leb_spec 0 x); [|lia].
    rewrite Nat.max_r by lia. unfold pack_s. rewrite hex_fixed_length.
    replace (8 - hex_width x)%nat with 0%nat by lia.
    cbn [repeat]. rewrite app_nil_r.
    replace (hex_width x) with (8 + Z.to_nat k)%nat at 1 by (unfold k; lia).
    rewrite firstn_hex_fixed. rewrite Z2Nat.id by lia. reflexivity. }
  split.
  - rewrite Hfmt. apply int16_hex_fixed. unfold u32. split.
    + apply Z.div_pos; lia.
    + apply Z.div_lt_upper_bound; [lia|].
      change 4294967296 with (16 ^ 8). rewrite <- Z.pow_add_r by lia.
      replace (k + 8) with (Z.of_nat (hex_width x)) by (unfold k; lia).
      exact Hhi.
  - apply Z.div_lt; lia.
Qed.

Lemma wide_field_is_truncated_witness :
  0 < 1 /\ int16 (pack_s 8 (format_08x 4294967296)) = Some 268435456
  /\ 268435456 < 4294967296.
Proof.
  exact (wide_field_is_truncated 4294967296 ltac:(lia)).
Defined.

(** ** How [_from_file] fails *)

Lemma header_at_length (f : File) :
  0 <= cursor f ->
  len (header_at f) = Z.min 110 (Z.max 0 (len (content f) - cursor f)).
Proof.
  intros Hc. unfold header_at, len.
  rewrite length_firstn, length_skipn. lia.
Qed.

(** X4: [_from_file] checks the header before anything else in it: with
    fewer than 110 bytes left at the cursor it raises [BadCPIOFile] for a
    truncated archive, and with 110 bytes whose first six are not [070701]
    it raises [BadCPIOFile] for the magic, whatever the other fields hold;
    either way the cursor has moved past the bytes read. *)
Theorem header_is_checked_first (f : File) :
  0 <= cursor f ->
  (len (content f) - cursor f < 110 ->
   _from_file f = (Raise (BadCPIOFile Truncated), after_header f))
  /\ (110 <= len (content f) - cursor f ->
      header_magic (header_at f) <> b_lit "070701" ->
      _from_file f = (Raise (BadCPIOFile BadMagic), after_header f)).
Proof.
  intros Hc. pose proof (header_at_length f Hc) as Hl.
  split.
  - intros Hshort. unfold _from_file.
    rewrite (bind_step tell _ f f (cursor f) eq_refl).
    rewrite (bind_step (read ENTRY_HEADER_size) _ _ _ _ (read_header f)).
    unfold ENTRY_HEADER_size.
    destruct (Z.eqb_spec (len (header_at f)) 110); [lia|]. reflexivity.
  - intros Hfull Hmagic. unfold _from_file.
    rewrite (bind_step tell _ f f (cursor f) eq_refl).
    rewrite (bind_step (read ENTRY_HEADER_size) _ _ _ _ (read_header f)).
    unfold ENTRY_HEADER_size.
    destruct (Z.eqb_spec (len (header_at f)) 110); [|lia]. cbn [negb].
    unfold bytes_eqb.
    destruct (list_eq_dec byte_eq_dec (header_magic (header_at f))
                (b_lit "070701")); [contradiction|]. reflexivity.
Qed.

Lemma header_is_checked_first_witness :
  _from_file (mkFile (b_lit "070701") 0)
  = (Raise (BadCPIOFile Truncated), mkFile (b_lit "070701") 6)
  /\ _from_file (mkFile (b_lit "070707" ++ skipn 6 non_hex_store) 0)
     = (Raise (BadCPIOFile BadMagic),
        mkFile (b_lit "070707" ++ skipn 6 non_hex_store) 110).
Proof.
  split.
  - apply (proj1 (header_is_checked_first (mkFile (b_lit "070701") 0)
                    ltac:(cbn; lia))).
    vm_compute. reflexivity.
  - apply (proj2 (header_is_checked_first
                    (mkFile (b_lit "070707" ++ skipn 6 non_hex_store) 0)
                    ltac:(cbn; lia))).
    + vm_compute. discriminate.
    + vm_compute. discriminate.
Defined.

(** With a sound header, [_from_file] goes on to the name. *)
Lemma from_file_name_phase (f : File) (d : CPIOInfo) (namesize : Z) :
  len (header_at f) = 110 ->
  header_magic (header_at f) = b_lit "070701" ->
  fields_of (header_at f) d ->
  int16 (header_field 11 (header_at f)) = Some namesize ->
  namesize <> 0 ->
  _from_file f
  = match read namesize (after_header f) with
    | (Ok nm, f2) =>
      if negb (len nm =? namesize) then (Raise (BadCPIOFile Truncated), f2)
      else if negb (bz (last nm x00) =? 0) then
        (Raise (BadCPIOFile NotNulTerminated), f2)
      else
        match utf8_decode (removelast nm) with
        | None => (Raise UnicodeDecodeError, f2)
        | Some _ => (Ok (at_offset (cursor f)
                           (mkCPIOInfo 0 (ino d) (mode d) (uid d) (gid d)
                              (nlink d) (mtime d) (filesize d) (devmajor d)
                              (devminor d) (rdevmajor d) (rdevminor d)
                              (removelast nm))), f2)
        end
    | (Raise e, f2) => (Raise e, f2)
    end.
Proof.
  intros Hlen Hmagic Hf Hns Hnz.
  destruct Hf as (H0 & H1 & H2 & H3 & H4 & H5 & H6 & H7 & H8 & H9 & H10).
  unfold _from_file.
  rewrite (bind_step tell _ f f (cursor f) eq_refl).
  rewrite (bind_step (read ENTRY_HEADER_size) _ _ _ _ (read_header f)).
  rewrite Hlen, Hmagic. cbn [Z.eqb Pos.eqb negb ENTRY_HEADER_size].
  replace (bytes_eqb (b_lit "070701") (b_lit "070701")) with true
    by reflexivity.
  cbn [negb].
  rewrite bind_parse, H0, bind_parse, H1, bind_parse, H2, bind_parse, H3,
    bind_parse, H4, bind_parse, H5, bind_parse, H6, bind_parse, H7,
    bind_parse, H8, bind_parse, H9, bind_parse, H10, bind_parse, Hns.
  destruct (Z.eqb_spec namesize 0); [contradiction|].
  unfold bind.
  destruct (read namesize (after_header f)) as [[nm|e] f2]; [|reflexivity].
  destruct (negb (len nm =? namesize)); [reflexivity|].
  destruct (negb (bz (last nm x00) =? 0)); [reflexivity|].
  destruct (utf8_decode (removelast nm)) as [s|] eqn:Hs; [|reflexivity].
  unfold lift_res, CPIOInfo_init. rewrite (utf8_encode_decode _ _ Hs).
  reflexivity.
Qed.

Lemma name_at_length (f : File) (namesize : Z) :
  0 <= cursor f -> len (header_at f) = 110 -> 0 <= namesize ->
  len (name_at f namesize)
  = Z.min namesize (Z.max 0 (len (content f) - (cursor f + 110))).
Proof.
  intros Hc Hh Hn. unfold name_at, after_header. cbn [cursor]. rewrite Hh.
  unfold len. rewrite length_firstn, length_skipn. lia.
Qed.

(** X5: after a sound header, the name decides: a negative [namesize]
    (the field [int] reads with a sign) or one larger than what is left
    raises [BadCPIOFile] for a truncated archive; enough bytes whose last is
    not NUL raise [BadCPIOFile] for the missing terminator; and a
    NUL-terminated name that is not valid UTF-8 raises
    [UnicodeDecodeError], which is no [BadCPIOFile]. *)
Theorem name_errors (f : File) (d : CPIOInfo) (namesize : Z) :
  0 <= cursor f ->
  len (header_at f) = 110 ->
  header_magic (header_at f) = b_lit "070701" ->
  fields_of (header_at f) d ->
  int16 (header_field 11 (header_at f)) = Some namesize ->
  (namesize < 0 -> fst (_from_file f) = Raise (BadCPIOFile Truncated))
  /\ (0 < namesize ->
      len (content f) - (cursor f + 110) < namesize ->
      fst (_from_file f) = Raise (BadCPIOFile Truncated))
  /\ (0 < namesize ->
      namesize <= len (content f) - (cursor f + 110) ->
      bz (last (name_at f namesize) x00) <> 0 ->
      fst (_from_file f) = Raise (BadCPIOFile NotNulTerminated))
  /\ (0 < namesize ->
      namesize <= len (content f) - (cursor f + 110) ->
      bz (last (name_at f namesize) x00) = 0 ->
      utf8_decode (removelast (name_at f namesize)) = None ->
      fst (_from_file f) = Raise UnicodeDecodeError).
Proof.
  intros Hc Hlen Hmagic Hf Hns.
  split; [|split; [|split]].
  - intros Hneg.
    rewrite (from_file_name_phase f d namesize) by (auto; lia).
    unfold read. destruct (Z.ltb_spec namesize 0); [|lia].
    set (avail := skipn _ _). pose proof (len_nonneg avail).
    destruct (Z.eqb_spec (len avail) namesize); [lia|]. reflexivity.
  - intros Hpos Hshort.
    rewrite (from_file_name_phase f d namesize) by (auto; lia).
    rewrite read_name by lia.
    pose proof (name_at_length f namesize Hc Hlen ltac:(lia)) as Hl.
    destruct (Z.eqb_spec (len (name_at f namesize)) namesize); [lia|].
    reflexivity.
  - intros Hpos Henough Hlast.
    rewrite (from_file_name_phase f d namesize) by (auto; lia).
    rewrite read_name by lia.
    pose proof (name_at_length f namesize Hc Hlen ltac:(lia)) as Hl.
    destruct (Z.eqb_spec (len (name_at f namesize)) namesize); [|lia].
    cbn [negb].
    destruct (Z.eqb_spec (bz (last (name_at f namesize) x00)) 0);
      [contradiction|]. reflexivity.
  - intros Hpos Henough Hlast Hbad.
    rewrite (from_file_name_phase f d namesize) by (auto; lia).
    rewrite read_name by lia.
    pose proof (name_at_length f namesize Hc Hlen ltac:(lia)) as Hl.
    destruct (Z.eqb_spec (len (name_at f namesize)) namesize); [|lia].
    cbn [negb].
    destruct (Z.eqb_spec (bz (last (name_at f namesize) x00)) 0);
      [|contradiction].
    cbn [negb]. rewrite Hbad. reflexivity.
Qed.

Lemma name_errors_witness :
  fst (_from_file (mkFile (plain_header "-0000001" ++ b_lit "a" ++ [x00]) 0))
  = Raise (BadCPIOFile Truncated)
  /\ fst (_from_file (mkFile (plain_header "00000005" ++ b_lit "a" ++ [x00]) 0))
     = Raise (BadCPIOFile Truncated)
  /\ fst (_from_file (mkFile (plain_header "00000002" ++ b_lit "ab") 0))
     = Raise (BadCPIOFile NotNulTerminated)
  /\ fst (_from_file (mkFile (plain_header "00000002" ++ [xff; x00]) 0))
     = Raise UnicodeDecodeError.
Proof.
  assert (Hf : forall ns rest,
             fields_of (header_at (mkFile (plain_header ns ++ rest) 0))
               (plain_info 0 0 []) ->
             True) by (intros; exact I).
  split; [|split; [|split]].
  - refine (proj1 (name_errors
               (mkFile (plain_header "-0000001" ++ b_lit "a" ++ [x00]) 0)
               (plain_info 0 0 []) (-1) _ eq_refl eq_refl _ eq_refl) _).
    + cbn. lia.
    + vm_compute. repeat split.
    + lia.
  - refine (proj1 (proj2 (name_errors
               (mkFile (plain_header "00000005" ++ b_lit "a" ++ [x00]) 0)
               (plain_info 0 0 []) 5 _ eq_refl eq_refl _ eq_refl)) _ _).
    + cbn. lia.
    + vm_compute. repeat split.
    + lia.
    + vm_compute. reflexivity.
  - refine (proj1 (proj2 (proj2 (name_errors
               (mkFile (plain_header "00000002" ++ b_lit "ab") 0)
               (plain_info 0 0 []) 2 _ eq_refl eq_refl _ eq_refl))) _ _ _).
    + cbn. lia.
    + vm_compute. repeat split.
    + lia.
    + vm_compute. discriminate.
    + vm_compute. discriminate.
  - refine (proj2 (proj2 (proj2 (name_errors
               (mkFile (plain_header "00000002" ++ [xff; x00]) 0)
               (plain_info 0 0 []) 2 _ eq_refl eq_refl _ eq_refl))) _ _ _ _).
    + cbn. lia.
    + vm_compute. repeat split.
    + lia.
    + vm_compute. discriminate.
    + reflexivity.
    + reflexivity.
Defined.

Lemma from_file_result (f f' : File) (r : res CPIOInfo) :
  _from_file f = (r, f') ->
  content f' = content f
  /\ forall e, r = Raise e ->
       (exists why, e = BadCPIOFile why) \/ e = UnicodeDecodeError.
Proof.
  unfold _from_file.
  rewrite (bind_step tell _ f f (cursor f) eq_refl).
  rewrite (bind_step (read ENTRY_HEADER_size) _ _ _ _ (read_header f)).
  assert (Hbad : forall why (g : File),
            content g = content f ->
            @raise File CPIOInfo (BadCPIOFile why) g = (r, f') ->
            content f' = content f
            /\ forall e, r = Raise e ->
                 (exists why, e = BadCPIOFile why) \/ e = UnicodeDecodeError).
  { intros why g Hg [= <- <-]. split; [exact Hg|]. intros e [= <-].
    left. exists why. reflexivity. }
  destruct (negb (len (header_at f) =? ENTRY_HEADER_size));
    [apply Hbad; reflexivity|].
  destruct (negb (bytes_eqb (header_magic (header_at f)) (b_lit "070701")));
    [apply Hbad; reflexivity|].
  do 12 (rewrite bind_parse;
         match goal with
         | |- context [match int16 ?fld with _ => _ end] =>
           destruct (int16 fld); [|apply (Hbad NonHexField); reflexivity]
         end).
  match goal with
  | |- context [if ?c then _ else _] =>
    destruct c; [apply Hbad; reflexivity|]
  end.
  unfold bind.
  match goal with
  | |- context [read ?n ?g] =>
    assert (Hr : content (snd (read n g)) = content f) by reflexivity;
    destruct (read n g) as [[nm|e0] f2] eqn:Er
  end; cbn [snd] in Hr.
  - destruct (negb (len nm =? _)); [apply Hbad; exact Hr|].
    destruct (negb (bz (last nm x00) =? 0)); [apply Hbad; exact Hr|].
    destruct (utf8_decode (removelast nm)) as [s|] eqn:Hs.
    + unfold lift_res, CPIOInfo_init. rewrite (utf8_encode_decode _ _ Hs).
      intros [= <- <-]. split; [exact Hr|]. intros e He. discriminate.
    + intros [= <- <-]. split; [exact Hr|]. intros e [= <-].
      right. reflexivity.
  - unfold read in Er. discriminate.
Qed.

(** X6: [_from_file] never writes: whatever it returns or raises, the
    store is as it was; and when it raises, it raises [BadCPIOFile] or, for
    a name that is not valid UTF-8, [UnicodeDecodeError], nothing else. *)
Theorem from_file_outcomes (f : File) :
  content (snd (_from_file f)) = content f
  /\ forall e, fst (_from_file f) = Raise e ->
       (exists why, e = BadCPIOFile why) \/ e = UnicodeDecodeError.
Proof.
  destruct (_from_file f) as [r f'] eqn:E.
  apply from_file_result in E. exact E.
Qed.

(** ** The scan as a whole *)

Lemma infolist_body_content (f : File) :
  content (snd (infolist_body f)) = content f.
Proof.
  unfold infolist_body.
  destruct (_from_file f) as [r f'] eqn:E.
  apply from_file_result in E. destruct E as [Hc _].
  destruct r as [info|e]; [|exact Hc].
  destruct (name info) as [s|e]; [|exact Hc].
  destruct (pystr_eqb s TRAILER); exact Hc.
Qed.

Lemma infolist_next_content (g : gen_state) (f : File) :
  content (snd (infolist_next g f)) = content f.
Proof.
  destruct g as [|info|]; cbn [infolist_next]; [| |reflexivity].
  - unfold seek_set. cbn [Z.ltb Z.compare].
    rewrite infolist_body_content. reflexivity.
  - unfold seek_set. destruct (_offset_after info <? 0); [reflexivity|].
    rewrite infolist_body_content. reflexivity.
Qed.

Lemma infolist_run_content (fuel : nat) :
  forall g f, content (snd (infolist_run fuel g f)) = content f.
Proof.
  induction fuel as [|fuel IH]; intros g f; [reflexivity|].
  cbn [infolist_run]. pose proof (infolist_next_content g f) as Hn.
  destruct (infolist_next g f) as [[[info| |e] g'] f']; cbn [snd] in Hn;
    try exact Hn.
  specialize (IH g' f').
  destruct (infolist_run fuel g' f') as [[l o] f'']. cbn [snd] in *.
  congruence.
Qed.

Lemma infolist_from_content (fuel : nat) (f : File) (cur : Z) :
  fst (infolist fuel (mkFile (content f) cur)) = fst (infolist fuel f).
Proof.
  unfold infolist. destruct fuel as [|fuel]; [reflexivity|].
  cbn [infolist_run infolist_next]. reflexivity.
Qed.

(** X7: a scan leaves the store as it was and starts by seeking to 0, so
    what it yields and how it ends depend on the bytes of the store only:
    not on where the cursor stood, and a second scan after the first
    yields the same descriptors and ends the same way. *)
Theorem scan_is_restartable (fuel : nat) (f : File) (cur : Z) :
  content (snd (infolist fuel f)) = content f
  /\ fst (infolist fuel (mkFile (content f) cur)) = fst (infolist fuel f)
  /\ fst (infolist fuel (snd (infolist fuel f))) = fst (infolist fuel f).
Proof.
  pose proof (infolist_run_content fuel GenStart f) as Hc.
  fold (infolist fuel f) in Hc.
  split; [exact Hc|]. split; [apply infolist_from_content|].
  rewrite <- (infolist_from_content fuel f
                (cursor (snd (infolist fuel f)))).
  rewrite <- Hc. destruct (snd (infolist fuel f)). reflexivity.
Qed.

Lemma entry_needs_header (f f' : File) (d : CPIOInfo) :
  0 <= cursor f -> _from_file f = (Ok d, f') ->
  110 <= len (content f) - cursor f.
Proof.
  intros Hc H. apply from_file_ok_inv in H.
  destruct H as (ns & s & Hl & _).
  rewrite (header_at_length f Hc) in Hl. lia.
Qed.

Lemma infolist_run_halts (n : nat) :
  forall g f p,
    points_to g p ->
    len (content f) - p + 2 < 112 * Z.of_nat (S n) ->
    snd (fst (infolist_run (S n) g f)) <> OutOfFuel
    \/ Exists (fun d => filesize d < 0) (fst (fst (infolist_run (S n) g f))).
Proof.
  induction n as [|n IH]; intros g f p Hg Hm.
  - cbn [infolist_run]. destruct (Z.ltb_spec p 0) as [Hneg|Hpos].
    + destruct g as [|i|]; cbn [points_to] in Hg; [lia| |destruct Hg].
      cbn [infolist_next]. unfold seek_set. rewrite Hg.
      destruct (Z.ltb_spec p 0); [|lia]. left. cbn. discriminate.
    + rewrite (seek_to g p f Hg Hpos). unfold infolist_body.
      destruct (_from_file (mkFile (content f) p)) as [[info|e] f'] eqn:E;
        [|left; cbn; discriminate].
      pose proof (entry_needs_header (mkFile (content f) p) f' info Hpos E)
        as Hh.
      cbn [content cursor] in Hh. lia.
  - remember (S n) as m eqn:Hm'. cbn [infolist_run].
    destruct (Z.ltb_spec p 0) as [Hneg|Hpos].
    + destruct g as [|i|]; cbn [points_to] in Hg; [lia| |destruct Hg].
      cbn [infolist_next]. unfold seek_set. rewrite Hg.
      destruct (Z.ltb_spec p 0); [|lia]. left. cbn. discriminate.
    + rewrite (seek_to g p f Hg Hpos). unfold infolist_body.
      destruct (_from_file (mkFile (content f) p)) as [[info|e] f'] eqn:E;
        [|left; cbn; discriminate].
      destruct (name info) as [s|e]; [|left; cbn; discriminate].
      destruct (pystr_eqb s TRAILER); [left; cbn; discriminate|].
      pose proof (from_file_offset _ _ _ E) as Ho. cbn [cursor] in Ho.
      pose proof (entry_needs_header (mkFile (content f) p) f' info Hpos E)
        as Hh.
      cbn [content cursor] in Hh.
      pose proof (from_file_result _ _ _ E) as [Hc _]. cbn [content] in Hc.
      destruct (Z.ltb_spec (filesize info) 0) as [Hfs|Hfs].
      * right. destruct (infolist_run m _ _) as [[l o] f''].
        cbn [fst]. constructor. exact Hfs.
      * destruct (entry_span info) as [_ Hspan]. specialize (Hspan Hfs).
        specialize (IH (GenSuspended info) f' (_offset_after info) eq_refl).
        rewrite Hc in IH.
        assert (Hm2 : len (content f) - _offset_after info + 2
                      < 112 * Z.of_nat m) by lia.
        specialize (IH Hm2).
        destruct (infolist_run m (GenSuspended info) f')
          as [[l o] f''].
        cbn [fst snd] in *. destruct IH as [IH|IH]; [left; exact IH|].
        right. apply Exists_cons_tl. exact IH.
Qed.

(** X8: the scan of a store of [n] bytes ends within [(n + 2) / 112 + 1]
    calls of [next], by reaching the trailer or by raising, unless it has
    yielded a descriptor whose [filesize] is negative: each yielded
    descriptor with a size of 0 or more moves the scan at least 112 bytes
    on. *)
Theorem scan_halts (fuel : nat) (f : File) :
  (len (content f) + 2) / 112 < Z.of_nat fuel ->
  snd (fst (infolist fuel f)) <> OutOfFuel
  \/ Exists (fun d => filesize d < 0) (fst (fst (infolist fuel f))).
Proof.
  intros Hfuel. destruct fuel as [|n]; [|].
  - pose proof (len_nonneg (content f)).
    assert (0 <= (len (content f) + 2) / 112) by (apply Z.div_pos; lia).
    lia.
  - apply (infolist_run_halts n GenStart f 0); [reflexivity|].
    pose proof (Z.div_mod (len (content f) + 2) 112 ltac:(lia)).
    pose proof (Z.mod_pos_bound (len (content f) + 2) 112 ltac:(lia)).
    lia.
Qed.

Lemma scan_halts_witness :
  snd (fst (infolist 3 (mkFile hello_store 0))) <> OutOfFuel
  \/ Exists (fun d => filesize d < 0)
       (fst (fst (infolist 3 (mkFile hello_store 0)))).
Proof.
  apply (scan_halts 3 (mkFile hello_store 0)). vm_compute. reflexivity.
Defined.

Lemma run_failures (fuel : nat) :
  forall g f e,
    gen_nonneg g ->
    snd (fst (infolist_run fuel g f)) = Failed e ->
    (exists why, e = BadCPIOFile why) \/ e = UnicodeDecodeError
    \/ (e = ValueError NegativeSeek
        /\ (gen_negative g
            \/ Exists (fun d => filesize d < 0)
                 (fst (fst (infolist_run fuel g f))))).
Proof.
  induction fuel as [|fuel IH]; intros g f e Hg H; [discriminate|].
  cbn [infolist_run] in *.
  assert (Hbody : forall f0,
            0 <= cursor f0 ->
            match infolist_body f0 with
            | (Yielded info, g', _) => g' = GenSuspended info
                                       /\ 0 <= _offset info
            | (StopIteration, _, _) => True
            | (GenRaised e', _, _) =>
              (exists why, e' = BadCPIOFile why) \/ e' = UnicodeDecodeError
            end).
  { intros f0 Hc. unfold infolist_body.
    destruct (_from_file f0) as [[info|e'] f1] eqn:E.
    - pose proof (from_file_offset _ _ _ E) as Ho.
      unfold name. destruct (utf8_decode (_name info)) as [s|].
      + destruct (pystr_eqb s TRAILER); [exact I|]. split; [reflexivity|lia].
      + right. reflexivity.
    - apply from_file_result in E. destruct E as [_ E]. apply E. reflexivity. }
  assert (Hstep :
            match infolist_next g f with
            | (Yielded info, g', _) => g' = GenSuspended info
                                       /\ 0 <= _offset info
            | (StopIteration, _, _) => True
            | (GenRaised e', _, _) =>
              (exists why, e' = BadCPIOFile why) \/ e' = UnicodeDecodeError
              \/ (e' = ValueError NegativeSeek /\ gen_negative g)
            end).
  { destruct g as [|i|]; cbn [infolist_next].
    - unfold seek_set. cbn [Z.ltb Z.compare].
      specialize (Hbody (mkFile (content f) 0) ltac:(cbn; lia)).
      destruct (infolist_body _) as [[[info| |e'] g'] f1]; auto.
      destruct Hbody; auto.
    - unfold seek_set. destruct (Z.ltb_spec (_offset_after i) 0) as [Hn|Hn].
      + right. right. split; [reflexivity|]. cbn [gen_negative gen_nonneg] in *.
        destruct (Z.ltb_spec (filesize i) 0) as [|Hfs]; [assumption|].
        destruct (entry_span i) as [_ Hs]. specialize (Hs Hfs). lia.
      + specialize (Hbody (mkFile (content f) (_offset_after i))
                      ltac:(cbn; lia)).
        destruct (infolist_body _) as [[[info| |e'] g'] f1]; auto.
        destruct Hbody; auto.
    - exact I. }
  destruct (infolist_next g f) as [[[info| |e'] g'] f1].
  - destruct Hstep as [-> Ho].
    specialize (IH (GenSuspended info) f1 e Ho).
    destruct (infolist_run fuel (GenSuspended info) f1) as [[l o] f2].
    cbn [fst snd] in *. specialize (IH H).
    destruct IH as [IH|[IH|[IH1 [IH2|IH2]]]]; auto.
    + right. right. split; [exact IH1|]. right. constructor. exact IH2.
    + right. right. split; [exact IH1|]. right. apply Exists_cons_tl.
      exact IH2.
  - discriminate.
  - cbn [fst snd] in H. injection H as <-.
    destruct Hstep as [Hs|[Hs|[Hs1 Hs2]]]; auto.
Qed.

(** X9: a scan that fails raises [BadCPIOFile] or [UnicodeDecodeError], or
    the [ValueError] of a seek to a negative position; and the last only
    after it has yielded a descriptor whose [filesize] is negative. *)
Theorem scan_failures (fuel : nat) (f : File) (e : exn) :
  snd (fst (infolist fuel f)) = Failed e ->
  (exists why, e = BadCPIOFile why) \/ e = UnicodeDecodeError
  \/ (e = ValueError NegativeSeek
      /\ Exists (fun d => filesize d < 0) (fst (fst (infolist fuel f)))).
Proof.
  intros H. apply run_failures in H; [|exact I].
  destruct H as [H|[H|[H1 [[]|H2]]]]; auto.
Qed.

Lemma scan_failures_witness :
  (exists why, ValueError NegativeSeek = BadCPIOFile why)
  \/ ValueError NegativeSeek = UnicodeDecodeError
  \/ (ValueError NegativeSeek = ValueError NegativeSeek
      /\ Exists (fun d => filesize d < 0)
           (fst (fst (infolist 2 (mkFile negative_seek_store 0))))).
Proof.
  apply (scan_failures 2 (mkFile negative_seek_store 0)
           (ValueError NegativeSeek)).
  vm_compute. reflexivity.
Defined.

(** ** The member streams *)

Lemma nth_error_set_nth {A} (l : list A) :
  forall h o x, nth_error l h = Some o -> nth_error (set_nth h x l) h = Some x.
Proof.
  induction l as [|y l IH]; intros [|h] o x H; try discriminate.
  - reflexivity.
  - cbn [set_nth nth_error] in *. eapply IH. exact H.
Qed.

Lemma set_nth_twice {A} (l : list A) :
  forall h x y, set_nth h x (set_nth h y l) = set_nth h x l.
Proof.
  induction l as [|z l IH]; intros [|h] x y; try reflexivity.
  cbn [set_nth]. f_equal. apply IH.
Qed.

Lemma set_nth_same {A} (l : list A) :
  forall h o, nth_error l h = Some o -> set_nth h o l = l.
Proof.
  induction l as [|z l IH]; intros [|h] o H; try discriminate.
  - cbn in H. injection H as ->. reflexivity.
  - cbn [set_nth nth_error] in *. f_equal. apply IH. exact H.
Qed.

Lemma writer_write_ok (w : World) (self : handle) (o : _WriteableMember)
  (data : bytes) :
  nth_error (heap w) self = Some o ->
  WriteableMember_write self data w = (Ok tt, written_world w self o data).
Proof.
  intros Hh. unfold WriteableMember_write. rewrite append_step.
  unfold bind, deref, assign. cbn [heap archive]. rewrite Hh. reflexivity.
Qed.

(** X10: on a read stream with [0 <= _pos <= _length], [read(n)] first
    seeks to [_start + _pos].  When that position is not negative, it
    returns bytes of the store from there on, at most [n] of them for
    [n >= 0], and never more than [_length - _pos]: the stream does not
    read past the member's declared size, whatever follows in the store;
    the position advances by what was returned and stays within the size,
    and the store is unchanged.  When that position is negative (a
    descriptor built with a negative offset), the seek raises its
    [ValueError] and nothing is read or changed. *)
Theorem read_is_clipped (r : _ReadableMember) (n : Z) (f : File) :
  0 <= _pos r <= _length r ->
  (0 <= _start r + _pos r ->
   let k := if (n <? 0) || (n >? _length r - _pos r)
            then _length r - _pos r else n in
   let got := firstn (Z.to_nat k)
                (skipn (Z.to_nat (_start r + _pos r)) (content f)) in
   ReadableMember_read r n f
   = (Ok (got, mkReadableMember (_start r) (_length r) (_pos r + len got)),
      mkFile (content f) (_start r + _pos r + len got))
   /\ len got <= _length r - _pos r
   /\ (0 <= n -> len got <= n)
   /\ _pos r + len got <= _length r)
  /\ (_start r + _pos r < 0 ->
      ReadableMember_read r n f = (Raise (ValueError NegativeSeek), f)).
Proof.
  intros Hp. split.
  - intros Hs k got.
    assert (Hk : 0 <= k <= _length r - _pos r).
    { unfold k. destruct (Z.ltb_spec n 0); cbn [orb]; [lia|].
      destruct (n >? _length r - _pos r) eqn:E; [lia|].
      rewrite Z.gtb_ltb in E. apply Z.ltb_ge in E. lia. }
    assert (Hkn : 0 <= n -> k <= n).
    { intros Hn. unfold k. destruct (Z.ltb_spec n 0); [lia|]. cbn [orb].
      destruct (n >? _length r - _pos r) eqn:E; [|lia].
      rewrite Z.gtb_ltb in E. apply Z.ltb_lt in E. lia. }
    assert (Hl : len got <= k).
    { unfold got, len. rewrite length_firstn. lia. }
    split; [|repeat split; try lia; intros Hn; specialize (Hkn Hn); lia].
    unfold ReadableMember_read, _read. fold k.
    unfold bind, seek_set.
    destruct (Z.ltb_spec (_start r + _pos r) 0); [lia|].
    unfold read. cbn [content cursor].
    destruct (Z.ltb_spec k 0); [lia|]. reflexivity.
  - intros Hs. unfold ReadableMember_read, _read, bind, seek_set.
    destruct (Z.ltb_spec (_start r + _pos r) 0); [reflexivity|lia].
Qed.

Lemma read_is_clipped_witness :
  (ReadableMember_read (mkReadableMember 120 5 2) 100 (mkFile hello_store 7)
   = (Ok (b_lit "rld", mkReadableMember 120 5 5), mkFile hello_store 125)
   /\ 3 <= 5 - 2 /\ (0 <= 100 -> 3 <= 100) /\ 2 + 3 <= 5)
  /\ ReadableMember_read (mkReadableMember (-88) 5 0) 100
       (mkFile hello_store 7)
     = (Raise (ValueError NegativeSeek), mkFile hello_store 7).
Proof.
  split.
  - refine (proj1 (read_is_clipped (mkReadableMember 120 5 2) 100
                     (mkFile hello_store 7) _) _); cbn; lia.
  - refine (proj2 (read_is_clipped (mkReadableMember (-88) 5 0) 100
                     (mkFile hello_store 7) _) _); cbn; lia.
Defined.

(** X11: reading a member in two steps gives its data in order: on the
    stream of a member whose data sits in the store, a first [read(n)]
    (any [n]) followed by [read()] return two pieces that make up the data
    exactly, and a further [read()] returns nothing. *)
Theorem reads_make_up_the_data (pre data tail : bytes) (cur n : Z) :
  exists g1 g2 r1 r2 f1 f2,
    ReadableMember_read (mkReadableMember (len pre) (len data) 0) n
      (mkFile (pre ++ data ++ tail) cur)
    = (Ok (g1, r1), f1)
    /\ ReadableMember_read r1 (-1) f1 = (Ok (g2, r2), f2)
    /\ g1 ++ g2 = data
    /\ _pos r2 = len data
    /\ ReadableMember_read r2 (-1) f2 = (Ok ([], r2), f2).
Proof.
  pose proof (len_nonneg data) as Hd.
  set (k := if (n <? 0) || (n >? len data - 0) then len data - 0 else n).
  assert (Hk : 0 <= k <= len data).
  { unfold k. destruct (Z.ltb_spec n 0); cbn [orb]; [lia|].
    destruct (n >? len data - 0) eqn:E; [lia|].
    rewrite Z.gtb_ltb in E. apply Z.ltb_ge in E. lia. }
  set (g1 := firstn (Z.to_nat k) data).
  assert (Hg1 : len g1 = k).
  { unfold g1, len. rewrite length_firstn. unfold len in Hk. lia. }
  exists g1, (skipn (Z.to_nat k) data).
  do 4 eexists.
  split.
  { rewrite (read_member pre data tail cur 0 n) by lia.
    cbn [Z.to_nat skipn]. fold k. fold g1. reflexivity. }
  split.
  { rewrite Z.add_0_l, Hg1.
    rewrite (read_member pre data tail _ k (-1)) by lia.
    cbn [Z.ltb Z.compare orb].
    rewrite firstn_all2
      by (rewrite length_skipn; unfold len; lia).
    reflexivity. }
  split; [apply firstn_skipn|].
  assert (Hrest : len (skipn (Z.to_nat k) data) = len data - k).
  { unfold len. rewrite length_skipn. unfold len in Hk. lia. }
  split; [cbn [_pos]; lia|].
  rewrite Hrest.
  replace (k + (len data - k)) with (len data) by lia.
  rewrite (read_member pre data tail _ (len data) (-1)) by lia.
  cbn [Z.ltb Z.compare orb]. rewrite Z.sub_diag. cbn [Z.to_nat firstn].
  change (len (@nil byte)) with 0. rewrite !Z.add_0_r.
  replace (len pre + k + (len data - k)) with (len pre + len data) by lia.
  reflexivity.
Qed.

Lemma writer_close_closed (w : World) (self : handle) (o : _WriteableMember) :
  nth_error (heap w) self = Some o ->
  _closed o = true ->
  WriteableMember_close self w = (Ok tt, w).
Proof.
  intros Hh Hc. unfold WriteableMember_close, bind, deref.
  rewrite Hh, Hc. reflexivity.
Qed.

(** X12: closing a write stream twice is closing it once: after a [close]
    that succeeded the stream is marked closed, and a second [close]
    returns at once, writing nothing and leaving the latch alone, even if
    another writer has been opened in between. *)
Theorem writer_close_is_idempotent (w : World) (self : handle)
  (o : _WriteableMember) :
  nth_error (heap w) self = Some o ->
  _closed o = false ->
  _actual_length o = _expected_length o ->
  (WriteableMember_close self ;;; WriteableMember_close self) w
  = WriteableMember_close self w
  /\ forall w', nth_error (heap w') self
                = Some (mkWriteableMember (_expected_length o)
                          (_actual_length o) true) ->
                WriteableMember_close self w' = (Ok tt, w').
Proof.
  intros Hh Hc Hl. split.
  - unfold bind. rewrite (writer_close_ok w self o Hh Hc Hl).
    apply (writer_close_closed _ _
             (mkWriteableMember (_expected_length o) (_actual_length o) true));
      [|reflexivity].
    unfold closed_world. cbn [heap].
    eapply nth_error_set_nth. exact Hh.
  - intros w' Hw'. eapply writer_close_closed; [exact Hw'|reflexivity].
Qed.

Lemma writer_close_is_idempotent_witness :
  (WriteableMember_close 0%nat ;;; WriteableMember_close 0%nat)
    world_full_writer
  = WriteableMember_close 0%nat world_full_writer.
Proof.
  apply (writer_close_is_idempotent world_full_writer 0%nat
           (mkWriteableMember 5 5 false)); reflexivity.
Defined.

(** X13: a [close] that failed because too few bytes were written can be
    retried: it changed nothing, so writing the missing bytes and closing
    again succeeds, and the store then holds the bytes and the padding. *)
Theorem short_close_can_be_retried (w : World) (self : handle)
  (o : _WriteableMember) (data : bytes) :
  nth_error (heap w) self = Some o ->
  _closed o = false ->
  _actual_length o < _expected_length o ->
  len data = _expected_length o - _actual_length o ->
  exists w',
    WriteableMember_close self w
    = (Raise (ValueError (LengthMismatch (_actual_length o)
                            (_expected_length o))), w)
    /\ (WriteableMember_write self data ;;; WriteableMember_close self) w
       = (Ok tt, w')
    /\ content (_fp (archive w'))
       = content (_fp (archive w)) ++ data
         ++ zeros ((4 - _expected_length o mod 4) mod 4)
    /\ _writer_active (archive w') = false
    /\ nth_error (heap w') self
       = Some (mkWriteableMember (_expected_length o) (_expected_length o)
                 true).
Proof.
  intros Hh Hc Hlt Hd.
  set (o' := mkWriteableMember (_expected_length o)
               (_actual_length o + len data) (_closed o)).
  assert (Hh' : nth_error (heap (written_world w self o data)) self = Some o')
    by (unfold written_world; cbn [heap]; eapply nth_error_set_nth;
        exact Hh).
  assert (Hl' : _actual_length o' = _expected_length o')
    by (cbn [o' _actual_length _expected_length]; lia).
  eexists. split; [|split; [|split; [|split]]].
  - apply (writer_close_mismatch w self o Hh Hc). lia.
  - unfold bind. rewrite (writer_write_ok w self o data Hh).
    apply (writer_close_ok _ self o' Hh' Hc Hl').
  - unfold closed_world, written_world.
    cbn [archive _fp content o' _actual_length].
    replace (_actual_length o + len data) with (_expected_length o) by lia.
    rewrite <- app_assoc. reflexivity.
  - reflexivity.
  - unfold closed_world, written_world. cbn [heap].
    rewrite set_nth_twice. cbn [o' _expected_length _actual_length].
    replace (_actual_length o + len data) with (_expected_length o) by lia.
    eapply nth_error_set_nth. exact Hh.
Qed.

Lemma short_close_can_be_retried_witness :
  exists w',
    WriteableMember_close 0%nat world_one_writer
    = (Raise (ValueError (LengthMismatch 2 5)), world_one_writer)
    /\ (WriteableMember_write 0%nat (b_lit "abc") ;;;
        WriteableMember_close 0%nat) world_one_writer
       = (Ok tt, w')
    /\ content (_fp (archive w'))
       = b_lit "0123" ++ b_lit "abc" ++ zeros ((4 - 5 mod 4) mod 4)
    /\ _writer_active (archive w') = false
    /\ nth_error (heap w') 0%nat = Some (mkWriteableMember 5 5 true).
Proof.
  apply (short_close_can_be_retried world_one_writer 0%nat
           (mkWriteableMember 5 2 false) (b_lit "abc"));
    try reflexivity.
Defined.

Lemma write_chunks_ok (chunks : list bytes) :
  forall (w : World) (self : handle) (o : _WriteableMember),
    nth_error (heap w) self = Some o ->
    exists w',
      write_chunks self chunks w = (Ok tt, w')
      /\ nth_error (heap w') self
         = Some (mkWriteableMember (_expected_length o)
                   (_actual_length o + len (List.concat chunks)) (_closed o))
      /\ _writer_active (archive w') = _writer_active (archive w).
Proof.
  induction chunks as [|c r IH]; intros w self o Hh.
  - exists w. cbn [write_chunks List.concat]. change (len (@nil byte)) with 0.
    rewrite Z.add_0_r. destruct o. auto.
  - cbn [write_chunks List.concat]. unfold bind.
    rewrite (writer_write_ok w self o c Hh).
    set (o1 := mkWriteableMember (_expected_length o)
                 (_actual_length o + len c) (_closed o)).
    destruct (IH (written_world w self o c) self o1) as (w' & Hw & Hn & Hla).
    { unfold written_world. cbn [heap]. eapply nth_error_set_nth. exact Hh. }
    exists w'. split; [exact Hw|]. split; [|exact Hla].
    rewrite Hn. cbn [o1 _expected_length _actual_length _closed].
    rewrite len_app, Z.add_assoc. reflexivity.
Qed.

(** X14: a writer that has written more than it declared can never be
    closed: whatever is written next, in any number of calls, [close]
    raises the length-mismatch [ValueError], so the latch stays set. *)
Theorem overlong_writer_never_closes (w : World) (self : handle)
  (o : _WriteableMember) (chunks : list bytes) :
  nth_error (heap w) self = Some o ->
  _closed o = false ->
  _expected_length o < _actual_length o ->
  exists w',
    (write_chunks self chunks ;;; WriteableMember_close self) w
    = (Raise (ValueError
                (LengthMismatch (_actual_length o + len (List.concat chunks))
                   (_expected_length o))), w')
    /\ _writer_active (archive w') = _writer_active (archive w).
Proof.
  intros Hh Hc Hgt.
  destruct (write_chunks_ok chunks w self o Hh) as (w' & Hw & Hn & Hla).
  exists w'. split; [|exact Hla]. unfold bind. rewrite Hw.
  pose proof (len_nonneg (List.concat chunks)).
  rewrite (writer_close_mismatch w' self _ Hn);
    cbn [_closed _actual_length _expected_length]; auto; lia.
Qed.

Lemma overlong_writer_never_closes_witness :
  exists w',
    (write_chunks 0%nat [b_lit "x"] ;;; WriteableMember_close 0%nat)
      (mkWorld (mkCPIOFile (mkFile (b_lit "0123") 4) true true)
         [mkWriteableMember 3 4 false])
    = (Raise (ValueError (LengthMismatch (4 + 1) 3)), w')
    /\ _writer_active (archive w') = true.
Proof.
  apply (overlong_writer_never_closes
           (mkWorld (mkCPIOFile (mkFile (b_lit "0123") 4) true true)
              [mkWriteableMember 3 4 false])
           0%nat (mkWriteableMember 3 4 false) [b_lit "x"]);
    [reflexivity|reflexivity|cbn; lia].
Defined.

(** ** The archive's life cycle *)

Lemma appends_refl (w w' : World) :
  content (_fp (archive w')) = content (_fp (archive w)) -> appends w w'.
Proof. intros H. exists []. rewrite app_nil_r. exact H. Qed.

Lemma open_appends (w : World) (info : CPIOInfo) (mode : string) :
  appends w (snd (CPIOFile_open info mode w)).
Proof.
  unfold CPIOFile_open.
  destruct (String.eqb mode "r"); [apply appends_refl; reflexivity|].
  destruct (String.eqb mode "w"); [|apply appends_refl; reflexivity].
  unfold bind at 1. unfold get_archive.
  destruct (_writeable (archive w)); [|apply appends_refl; reflexivity].
  unfold bind.
  destruct (_writer_active (archive w)) eqn:Hl.
  - rewrite (writer_init_latched w info Hl). apply appends_refl. reflexivity.
  - rewrite (writer_init_ok w info Hl). exists (encode info). reflexivity.
Qed.

Lemma write_appends (w : World) (self : handle) (data : bytes) :
  appends w (snd (WriteableMember_write self data w)).
Proof.
  unfold WriteableMember_write. rewrite append_step.
  unfold bind, deref, assign. cbn [heap archive].
  destruct (nth_error (heap w) self); exists data; reflexivity.
Qed.

Lemma close_appends (w : World) (self : handle) :
  appends w (snd (WriteableMember_close self w)).
Proof.
  destruct (nth_error (heap w) self) as [o|] eqn:Hh.
  - destruct (_closed o) eqn:Hc.
    + rewrite (writer_close_closed w self o Hh Hc). apply appends_refl.
      reflexivity.
    + destruct (Z.eq_dec (_actual_length o) (_expected_length o)) as [Hl|Hl].
      * rewrite (writer_close_ok w self o Hh Hc Hl).
        exists (zeros ((4 - _actual_length o mod 4) mod 4)). reflexivity.
      * rewrite (writer_close_mismatch w self o Hh Hc Hl).
        apply appends_refl. reflexivity.
  - unfold WriteableMember_close, bind, deref. rewrite Hh.
    apply appends_refl. reflexivity.
Qed.

Lemma archive_close_appends (w : World) :
  appends w (snd (CPIOFile_close w)).
Proof.
  destruct (_writeable (archive w)) eqn:Hw.
  - destruct (_writer_active (archive w)) eqn:Hl.
    + rewrite (archive_close_latched w Hw Hl). apply appends_refl.
      reflexivity.
    + rewrite (archive_close_ok w Hw Hl). exists (encode trailer_info).
      reflexivity.
  - unfold CPIOFile_close, bind, get_archive. rewrite Hw.
    apply appends_refl. reflexivity.
Qed.

(** X15: writing is append-only.  Whatever the state of the archive and
    wherever the cursor stands, whether it succeeds or raises, each of
    [open], a writer's [write] and [close], and the archive's [close]
    leaves every byte the store held in place and at most adds bytes at
    its end; reading through a read stream adds none. *)
Theorem archive_is_append_only (w : World) (info : CPIOInfo) (mode : string)
  (self : handle) (data : bytes) (r : _ReadableMember) (n : Z) :
  appends w (snd (CPIOFile_open info mode w))
  /\ appends w (snd (WriteableMember_write self data w))
  /\ appends w (snd (WriteableMember_close self w))
  /\ appends w (snd (CPIOFile_close w))
  /\ content (_fp (archive (snd (on_fp (ReadableMember_read r n) w))))
     = content (_fp (archive w)).
Proof.
  split; [apply open_appends|]. split; [apply write_appends|].
  split; [apply close_appends|]. split; [apply archive_close_appends|].
  unfold on_fp, ReadableMember_read, _read, bind, seek_set.
  destruct (_start r + _pos r <? 0); reflexivity.
Qed.

(** X16: [CPIOFile.close] is not idempotent: on a writeable archive with
    the latch clear a second [close] appends a second trailer entry.  A
    scan of a store of sound members stops at the first of them all the
    same.  On an archive opened for reading [close] does nothing. *)
Theorem archive_close_twice (w : World) (ms : list (CPIOInfo * bytes))
  (k : nat) :
  (_writeable (archive w) = true ->
   _writer_active (archive w) = false ->
   exists w2,
     (CPIOFile_close ;;; CPIOFile_close) w = (Ok tt, w2)
     /\ content (_fp (archive w2))
        = content (_fp (archive w)) ++ trailer_entry ++ trailer_entry
     /\ (Forall sound_member ms ->
         content (_fp (archive w)) = archive_bytes ms ->
         fst (infolist (List.length ms + S k) (_fp (archive w2)))
         = (descriptors 0 ms, Exhausted)))
  /\ (_writeable (archive w) = false -> CPIOFile_close w = (Ok tt, w)).
Proof.
  split.
  - intros Hw Hl. eexists. split; [|split].
    + unfold bind. rewrite (archive_close_ok w Hw Hl).
      apply archive_close_ok; reflexivity.
    + cbn [archive _fp content]. rewrite encode_trailer, <- app_assoc.
      reflexivity.
    + intros Hms Hc. cbn [archive _fp content].
      rewrite encode_trailer, <- app_assoc, Hc.
      apply (scan_archive_closed ms GenStart [] trailer_entry _ k Hms).
      reflexivity.
  - intros Hw. unfold CPIOFile_close, bind, get_archive. rewrite Hw.
    reflexivity.
Qed.

Lemma archive_close_twice_witness :
  (exists w2,
     (CPIOFile_close ;;; CPIOFile_close) earlier_world = (Ok tt, w2)
     /\ content (_fp (archive w2))
        = archive_bytes [(earlier_info, b_lit "xyz")]
          ++ trailer_entry ++ trailer_entry
     /\ fst (infolist 2 (_fp (archive w2))) = ([earlier_info], Exhausted))
  /\ CPIOFile_close (reading_world hello_store 0)
     = (Ok tt, reading_world hello_store 0).
Proof.
  destruct (archive_close_twice earlier_world
              [(earlier_info, b_lit "xyz")] 0) as [Hwr _].
  destruct (Hwr eq_refl eq_refl) as (w2 & Hc & Hb & Hs).
  split.
  - exists w2. split; [exact Hc|]. split; [exact Hb|].
    apply Hs; [|reflexivity].
    constructor; [|constructor]. split; [|split].
    + unfold fits_header, u32. vm_compute. intuition discriminate.
    + exists (s_lit "a"). split; [reflexivity|].
      intros H. vm_compute in H. discriminate.
    + reflexivity.
  - apply (proj2 (archive_close_twice (reading_world hello_store 0) [] 0)).
    reflexivity.
Defined.

(** X17: leaving a [with] block over a writeable archive always calls
    [close].  If the block ends, normally or by an exception, with a
    writer still open, what comes out is the close-while-writing
    [ValueError], in place of the block's own exception, and no trailer is
    written; with no writer open the trailer is appended and the block's
    result or exception comes out unchanged. *)
Theorem with_block_closes (A : Type) (body : M World A) (w w1 : World)
  (r : res A) :
  body w = (r, w1) ->
  _writeable (archive w1) = true ->
  (_writer_active (archive w1) = true ->
   with_archive body w = (Raise (ValueError CloseWhileWriting), w1))
  /\ (_writer_active (archive w1) = false ->
      exists w2,
        with_archive body w = (r, w2)
        /\ content (_fp (archive w2))
           = content (_fp (archive w1)) ++ trailer_entry).
Proof.
  intros Hb Hw. split; intros Hl; unfold with_archive, CPIOFile_exit;
    rewrite Hb.
  - rewrite (archive_close_latched w1 Hw Hl). destruct r; reflexivity.
  - rewrite (archive_close_ok w1 Hw Hl). eexists.
    split; [destruct r; reflexivity|].
    cbn [archive _fp content]. rewrite encode_trailer. reflexivity.
Qed.

Lemma with_block_closes_witness :
  with_archive (WriteableMember_close 0%nat) world_one_writer
  = (Raise (ValueError CloseWhileWriting), world_one_writer)
  /\ exists w2,
       with_archive (write_member hello_info [b_lit "world"]) fresh_world
       = (Ok tt, w2)
       /\ content (_fp (archive w2)) = hello_store.
Proof.
  split.
  - refine (proj1 (with_block_closes unit (WriteableMember_close 0%nat)
                     world_one_writer world_one_writer
                     (Raise (ValueError (LengthMismatch 2 5))) _ _) _);
      reflexivity.
  - destruct (proj2 (with_block_closes unit
                       (write_member hello_info [b_lit "world"]) fresh_world
                       (mkWorld
                          (mkCPIOFile
                             (mkFile (entry hello_info (b_lit "world")) 128)
                             true false)
                          [mkWriteableMember 5 5 true])
                       (Ok tt) ltac:(vm_compute; reflexivity) eq_refl)
                eq_refl) as (w2 & H1 & H2).
    exists w2. split; [exact H1|]. rewrite H2. reflexivity.
Defined.

(** ** Whole archives *)

Lemma write_members_ok (ms : list (CPIOInfo * bytes)) :
  forall w,
    _writeable (archive w) = true ->
    _writer_active (archive w) = false ->
    Forall sound_member ms ->
    exists w',
      write_members ms w = (Ok tt, w')
      /\ content (_fp (archive w'))
         = content (_fp (archive w)) ++ archive_bytes ms
      /\ _writeable (archive w') = true
      /\ _writer_active (archive w') = false.
Proof.
  induction ms as [|[info data] ms IH]; intros w Hw Hl Hall.
  - exists w. cbn [write_members archive_bytes]. rewrite app_nil_r. auto.
  - inversion Hall as [|m l Hm Hrest]; subst.
    destruct Hm as (_ & _ & Hlen). cbn [fst snd] in Hlen.
    cbn [write_members fst snd]. unfold bind.
    rewrite (write_member_ok w info [data] Hw Hl)
      by (cbn [List.concat]; rewrite app_nil_r; exact Hlen).
    cbn [List.concat]. rewrite app_nil_r.
    match goal with
    | |- context [write_members ms ?w1] =>
      destruct (IH w1 eq_refl eq_refl Hrest) as (w' & Hw' & Hc & Hwr & Hla)
    end.
    exists w'. split; [exact Hw'|]. split; [|auto].
    rewrite Hc. cbn [archive _fp content archive_bytes fst snd].
    rewrite <- app_assoc. reflexivity.
Qed.

Lemma read_all_members (ms : list (CPIOInfo * bytes)) :
  forall pre tail,
    Forall sound_member ms ->
    Forall2
      (fun d m =>
         name d = name (fst m)
         /\ forall cur,
              fst (read_twice d
                     (reading_world (pre ++ archive_bytes ms ++ tail) cur))
              = Ok (snd m, []))
      (descriptors (len pre) ms) ms.
Proof.
  induction ms as [|[info data] ms IH]; intros pre tail Hall;
    [constructor|].
  inversion Hall as [|m l Hm Hrest]; subst.
  destruct Hm as (Hd & _ & Hlen). cbn [fst snd] in Hd, Hlen.
  cbn [descriptors archive_bytes fst snd]. constructor.
  - split; [reflexivity|]. intros cur. unfold entry.
    rewrite <- !app_assoc. apply read_twice_member; assumption.
  - specialize (IH (pre ++ entry info data) tail Hrest).
    rewrite len_app, <- !app_assoc in IH. rewrite <- !app_assoc.
    exact IH.
Qed.

(** X18: an archive written member by member and closed by its [with]
    block reads back whole: for sound members (32-bit header values,
    names other than [TRAILER!!!], data of the declared size) written in
    order to a fresh archive, the store is their entries followed by one
    trailer, a scan yields exactly their descriptors in order and then
    ends, and each descriptor's read stream returns that member's data. *)
Theorem archive_round_trip (ms : list (CPIOInfo * bytes)) (k : nat) :
  Forall sound_member ms ->
  exists w',
    with_archive (write_members ms) fresh_world = (Ok tt, w')
    /\ content (_fp (archive w')) = archive_bytes ms ++ trailer_entry
    /\ fst (infolist (List.length ms + S k) (_fp (archive w')))
       = (descriptors 0 ms, Exhausted)
    /\ Forall2
         (fun d m =>
            name d = name (fst m)
            /\ forall cur,
                 fst (read_twice d
                        (reading_world (content (_fp (archive w'))) cur))
                 = Ok (snd m, []))
         (descriptors 0 ms) ms.
Proof.
  intros Hall.
  destruct (write_members_ok ms fresh_world eq_refl eq_refl Hall)
    as (w1 & Hw1 & Hc1 & Hwr & Hla).
  cbn [fresh_world archive _fp content app] in Hc1.
  eexists. split; [|split; [|split]].
  - unfold with_archive, CPIOFile_exit. rewrite Hw1.
    rewrite (archive_close_ok w1 Hwr Hla). reflexivity.
  - cbn [archive _fp content]. rewrite Hc1, encode_trailer. reflexivity.
  - cbn [archive _fp content]. rewrite Hc1, encode_trailer.
    rewrite <- (app_nil_r trailer_entry).
    apply (scan_archive_closed ms GenStart [] [] _ k Hall). reflexivity.
  - cbn [archive _fp content]. rewrite Hc1, encode_trailer.
    apply (read_all_members ms [] trailer_entry Hall).
Qed.

Lemma archive_round_trip_witness :
  exists w',
    with_archive
      (write_members [(earlier_info, b_lit "xyz"); (hello_info, b_lit "world")])
      fresh_world
    = (Ok tt, w')
    /\ fst (infolist 3 (_fp (archive w')))
       = ([earlier_info; at_offset 116 hello_info], Exhausted).
Proof.
  destruct (archive_round_trip
              [(earlier_info, b_lit "xyz"); (hello_info, b_lit "world")] 0)
    as (w' & Hw & _ & Hs & _).
  - constructor; [|constructor; [|constructor]]; (split; [|split]);
      try reflexivity;
      try (unfold fits_header, u32; vm_compute; intuition discriminate).
    + exists (s_lit "a"). split; [reflexivity|].
      intros H. vm_compute in H. discriminate.
    + exists (s_lit "hello.txt"). split; [reflexivity|].
      intros H. vm_compute in H. discriminate.
  - exists w'. split; [exact Hw|exact Hs].
Defined.

(** ** The [check] field *)

Lemma slice_app_l {A} (a b : Z) (h t : list A) :
  0 <= a <= b -> b <= len h -> slice a b (h ++ t) = slice a b h.
Proof.
  intros Hab Hb. unfold slice, len in *.
  rewrite skipn_app, firstn_app, length_skipn.
  replace (Z.to_nat a - List.length h)%nat with 0%nat by lia.
  replace (Z.to_nat (b - a) - (List.length h - Z.to_nat a))%nat
    with 0%nat by lia.
  cbn [skipn firstn]. rewrite app_nil_r. reflexivity.
Qed.

Lemma header_at_split (pre h chk rest : bytes) :
  len h = 102 -> len chk = 8 ->
  header_at (mkFile (pre ++ h ++ chk ++ rest) (len pre)) = h ++ chk.
Proof.
  intros Hh Hc. unfold header_at. cbn [cursor content].
  rewrite to_nat_len, skipn_length_app, app_assoc.
  replace 110%nat with (List.length (h ++ chk))
    by (rewrite length_app; unfold len in *; lia).
  apply firstn_length_app.
Qed.

Lemma name_at_split (pre h chk rest : bytes) (n : Z) :
  len h = 102 -> len chk = 8 ->
  name_at (mkFile (pre ++ h ++ chk ++ rest) (len pre)) n
  = firstn (Z.to_nat n) rest.
Proof.
  intros Hh Hc. unfold name_at, after_header.
  rewrite (header_at_split pre h chk rest Hh Hc). cbn [cursor content].
  replace (Z.to_nat (len pre + len (h ++ chk)))
    with (List.length (pre ++ h ++ chk))
    by (rewrite !length_app; unfold len; rewrite length_app; lia).
  replace (pre ++ h ++ chk ++ rest) with ((pre ++ h ++ chk) ++ rest)
    by (rewrite <- !app_assoc; reflexivity).
  rewrite skipn_length_app. reflexivity.
Qed.

(** X19: the [check] field plays no part in decoding: if a header is
    decoded into a descriptor, the same bytes with any other eight bytes in
    place of [check] (bytes 102 to 109 of the header) are decoded into the
    same descriptor, the cursor ending at the same place. *)
Theorem check_field_is_ignored (pre h chk1 chk2 rest : bytes)
  (d : CPIOInfo) (f' : File) :
  len h = 102 -> len chk1 = 8 -> len chk2 = 8 ->
  _from_file (mkFile (pre ++ h ++ chk1 ++ rest) (len pre)) = (Ok d, f') ->
  _from_file (mkFile (pre ++ h ++ chk2 ++ rest) (len pre))
  = (Ok d, mkFile (pre ++ h ++ chk2 ++ rest) (cursor f')).
Proof.
  intros Hh H1 H2 Hok.
  apply from_file_ok_inv in Hok.
  destruct Hok as (ns & s & Hlen & Hmagic & Hf & Hns & Hpos & Hnm & Hl & Hs
                   & Ho & ->).
  rewrite (header_at_split pre h chk1 rest Hh H1) in *.
  rewrite (name_at_split pre h chk1 rest ns Hh H1) in Hnm.
  cbn [cursor] in *.
  assert (Hfld : forall i, 0 <= i <= 11 ->
            header_field i (h ++ chk2) = header_field i (h ++ chk1)).
  { intros i Hi. unfold header_field.
    rewrite !slice_app_l by lia. reflexivity. }
  assert (Hmg : header_magic (h ++ chk2) = header_magic (h ++ chk1)).
  { unfold header_magic. rewrite !slice_app_l by lia. reflexivity. }
  set (f2 := mkFile (pre ++ h ++ chk2 ++ rest) (len pre)).
  assert (Hh2 : header_at f2 = h ++ chk2)
    by (apply header_at_split; assumption).
  apply (from_file_ok_intro f2 d ns s).
  - rewrite Hh2, len_app. rewrite len_app in Hlen. lia.
  - rewrite Hh2, Hmg. exact Hmagic.
  - rewrite Hh2. unfold fields_of in *. rewrite !Hfld by lia. exact Hf.
  - rewrite Hh2, Hfld by lia. exact Hns.
  - unfold f2. rewrite (name_at_split pre h chk2 rest ns Hh H2). exact Hnm.
  - exact Hl.
  - exact Hs.
  - exact Ho.
Qed.

Lemma check_field_is_ignored_witness :
  _from_file
    (mkFile ([] ++ firstn 102 unchecked_store ++ b_lit "00000000"
             ++ skipn 110 unchecked_store) 0)
  = (Ok (plain_info 0 0 (b_lit "a")),
     mkFile ([] ++ firstn 102 unchecked_store ++ b_lit "00000000"
             ++ skipn 110 unchecked_store) 112).
Proof.
  apply (check_field_is_ignored [] (firstn 102 unchecked_store)
           (b_lit "zzzzzzzz") (b_lit "00000000") (skipn 110 unchecked_store)
           (plain_info 0 0 (b_lit "a")) (mkFile unchecked_store 112));
    try reflexivity.
Defined.

(** X20: a read stream whose position lies beyond its length, as for a
    descriptor decoded with a negative [filesize], is not clipped at all:
    the count passed to [fp.read] is negative, so every [read(n)], whatever
    [n], returns all the bytes from [_start + _pos] to the end of the
    store. *)
Theorem negative_size_reads_to_the_end (r : _ReadableMember) (n : Z)
  (f : File) :
  _length r < _pos r ->
  0 <= _start r + _pos r ->
  let got := skipn (Z.to_nat (_start r + _pos r)) (content f) in
  ReadableMember_read r n f
  = (Ok (got, mkReadableMember (_start r) (_length r) (_pos r + len got)),
     mkFile (content f) (_start r + _pos r + len got)).
Proof.
  intros Hneg Hs got. unfold ReadableMember_read, _read.
  assert (Hk : (if (n <? 0) || (n >? _length r - _pos r)
                then _length r - _pos r else n) = _length r - _pos r).
  { destruct (Z.ltb_spec n 0); [reflexivity|]. cbn [orb].
    destruct (n >? _length r - _pos r) eqn:E; [reflexivity|].
    rewrite Z.gtb_ltb in E. apply Z.ltb_ge in E. lia. }
  rewrite Hk. unfold bind, seek_set.
  destruct (Z.ltb_spec (_start r + _pos r) 0); [lia|].
  unfold read. cbn [content cursor].
  destruct (Z.ltb_spec (_length r - _pos r) 0); [|lia]. reflexivity.
Qed.

Lemma negative_size_reads_to_the_end_witness :
  ReadableMember_read (ReadableMember_init looping_info) 1
    (mkFile (looping_store ++ b_lit "secret") 0)
  = (Ok (b_lit "secret", mkReadableMember 112 (-112) 6),
     mkFile (looping_store ++ b_lit "secret") 118).
Proof.
  refine (negative_size_reads_to_the_end (ReadableMember_init looping_info) 1
            (mkFile (looping_store ++ b_lit "secret") 0) _ _).
  - vm_compute. reflexivity.
  - vm_compute. discriminate.
Defined.
